(** * OLAPScript: expression trees and aggregate functions

    A shallow embedding of [src/expr.js] and [src/aggr.js].

    - JavaScript values are the inductive type [Value]; numbers are IEEE-754
      binary64 floating-point numbers, the primitive type [float] with its
      operations, as the JavaScript number type is.
    - A namespace (a JS object used as a dictionary from names to Columns)
      is a [gmap string Column] for its own properties; the lookup
      [namespace[name]] also finds what the object inherits from
      [Object.prototype].
    - An array is a [list]; reading past the end yields [undefined] and
      writing past the end extends the array, as in JavaScript.
    - A [throw] is the [Throw] constructor of [result]. *)

From Stdlib Require Import ZArith QArith Floats.
From stdpp Require Import gmap strings list fin_maps.

Local Open Scope string_scope.
Local Open Scope list_scope.
Local Open Scope nat_scope.

(** ** JavaScript values *)

#[warnings="-register-all"]
Inductive Value : Type :=
| VNull
| VUndefined
| VBool (b : bool)
| VNum (x : float)
| VStr (s : string)
| VArr (elems : list Value).

(** [v === null] *)
Definition is_null (v : Value) : bool :=
  match v with VNull => true | _ => false end.

(** [v == null]: loose equality also accepts [undefined]. *)
Definition loose_null (v : Value) : bool :=
  match v with VNull | VUndefined => true | _ => false end.

(** ToBoolean: [null], [undefined], [false], [0], [-0], [NaN] and the empty
    string are falsy. *)
Definition truthy (v : Value) : bool :=
  match v with
  | VNull | VUndefined => false
  | VBool b => b
  | VNum x => negb (PrimFloat.is_zero x || PrimFloat.is_nan x)
  | VStr s => match s with EmptyString => false | String _ _ => true end
  | VArr _ => true
  end.

(** [typeof v] *)
Definition typeof (v : Value) : string :=
  match v with
  | VNull => "object"
  | VUndefined => "undefined"
  | VBool _ => "boolean"
  | VNum _ => "number"
  | VStr _ => "string"
  | VArr _ => "object"
  end.

(** [a && b] and [a || b] return one of their operands; [!a] is a boolean. *)
Definition js_and (a b : Value) : Value := if truthy a then b else a.
Definition js_or (a b : Value) : Value := if truthy a then a else b.
Definition js_not (a : Value) : Value := VBool (negb (truthy a)).

(** [array.includes(null)] *)
Definition includes_null (args : list Value) : bool := existsb is_null args.

(** ** Arrays *)

(** [a[i]]: a read past the end (or of a hole) is [undefined]. *)
Definition js_get (a : list Value) (i : nat) : Value :=
  default VUndefined (a !! i).

(** [a[i] = v]: a write past the end extends the array; the skipped
    positions are holes, which read as [undefined]. *)
Definition js_set (a : list Value) (i : nat) (v : Value) : list Value :=
  if decide (i < length a) then <[i:=v]> a
  else a ++ replicate (i - length a) VUndefined ++ [v].

(** ** Errors *)

(** The message of a [TypeError] is chosen by the engine and is not modelled. *)
Inductive Error : Type :=
| ReferenceError (message : string)
| TypeError.

Inductive result (A : Type) : Type :=
| Ok (a : A)
| Throw (e : Error).
Arguments Ok {A} a.
Arguments Throw {A} e.

#[global] Instance result_bind : MBind result :=
  fun A B (k : A → result B) (r : result A) =>
    match r with
    | Ok a => k a
    | Throw e => Throw e
    end.
#[global] Instance result_ret : MRet result := fun A a => Ok a.

(** ** Columns and namespaces *)

(** Modelled from the spec: the [Column] class of [./column], which is not
    part of the sources at hand.  The spec describes it as an ordered
    sequence of values together with a declared element type that may be
    left unspecified; [new Column(type, data)] stores its two arguments. *)
Record Column : Type := mkColumn {
  type : option string;
  data : list Value
}.

(** What [namespace[name]] can yield: a Column that the namespace owns, or
    the function or object that the namespace inherits under that name. *)
Inductive Object : Type :=
| ColumnObj (column : Column)
| InheritedObj (name : string).

(** The property names of [Object.prototype], which every object created by
    an object literal inherits; their values are functions, and the
    prototype object itself for [__proto__], all truthy and none with a
    [data] property. *)
Definition Object_prototype_names : list string :=
  [ "constructor"; "hasOwnProperty"; "isPrototypeOf"; "propertyIsEnumerable";
    "toLocaleString"; "toString"; "valueOf"; "__proto__";
    "__defineGetter__"; "__defineSetter__"; "__lookupGetter__";
    "__lookupSetter__" ].

Definition inherits (name : string) : bool :=
  bool_decide (name ∈ Object_prototype_names).

Abbreviation Namespace := (gmap string Column).
Abbreviation Selection := (list nat).

(** [Object.keys(namespace)] *)
Definition Object_keys (namespace : Namespace) : list string :=
  (map_to_list namespace).*1.

(** [Object.keys(namespace).reduce((count, name) =>
       Math.max(count, namespace[name].data.length), 0)] *)
Definition row_count (namespace : Namespace) : nat :=
  foldl (fun count name =>
           count `max` from_option (fun column => length (data column)) 0
                                   (namespace !! name))
        0 (Object_keys namespace).

(** ** Expression trees *)

#[warnings="-register-all"]
Inductive Expr : Type :=
| FuncExpr (func : list Value → Value) (args : list Expr)
| RefExpr (reference : string)
| ConstExpr (constant : Value).

(** [new Array(count).fill(v)] *)
Definition Array_fill (count : nat) (v : Value) : list Value :=
  replicate count v.

(** [that.func.apply(that.func, inputs.map(column => column.data[selid]))] *)
Definition row_value (func : list Value → Value) (inputs : list Column)
    (selid : nat) : Value :=
  func (map (fun column => js_get (data column) selid) inputs).

(** [out[selid] = g(selid)] *)
Definition write_row (g : nat → Value) (out : list Value) (selid : nat)
    : list Value :=
  js_set out selid (g selid).

(** The callback of [selection.reduce] in [FuncExpr.evaluate] when every
    input is a Column; [out] is the array the source calls [data]. *)
Definition apply_row (func : list Value → Value) (inputs : list Column)
    (out : list Value) (selid : nat) : list Value :=
  write_row (row_value func inputs) out selid.

(** [column.data[selid]] on the value an argument evaluated to: an inherited
    function or object has no [data], and indexing [undefined] throws. *)
Definition read_row (input : Object) (selid : nat) : result Value :=
  match input with
  | ColumnObj column => Ok (js_get (data column) selid)
  | InheritedObj _ => Throw TypeError
  end.

(** The callback of [selection.reduce] in [FuncExpr.evaluate]:
    [data[selid] = that.func.apply(that.func,
                     inputs.map(column => column.data[selid]))] *)
Definition apply_row_objects (func : list Value → Value) (inputs : list Object)
    (out : list Value) (selid : nat) : result (list Value) :=
  values ← mapM (fun column => read_row column selid) inputs;
  Ok (js_set out selid (func values)).

(** [array.reduce(callback, init)] with a callback that may throw. *)
Definition reduce_result {A B} (callback : A → B → result A)
    : list B → A → result A :=
  fix go (l : list B) (a : A) : result A :=
    match l with
    | [] => Ok a
    | b :: l' => a' ← callback a b; go l' a'
    end.

Fixpoint evaluate (e : Expr) (namespace : Namespace) (selection : Selection)
    : result Object :=
  match e with
  | FuncExpr func args =>
      inputs ← mapM (fun arg => evaluate arg namespace selection) args;
      let count := row_count namespace in
      out ← reduce_result (apply_row_objects func inputs) selection
                          (Array_fill count VNull);
      Ok (ColumnObj (mkColumn None out))
  | RefExpr reference =>
      match namespace !! reference with
      | Some result => Ok (ColumnObj result)
      | None =>
          if inherits reference then Ok (InheritedObj reference)
          else Throw (ReferenceError ("Unknown column: " +:+ reference))
      end
  | ConstExpr constant =>
      let count := row_count namespace in
      Ok (ColumnObj (mkColumn (Some (typeof constant))
                              (Array_fill count constant)))
  end.

(** ** The scalar expression library *)

(** [Expr.and(...args)] *)
Definition Expr_and (args : list Value) : Value :=
  if includes_null args then VNull
  else foldl (fun result arg => js_and result arg) (VBool true) args.

(** [Expr.or(...args)] *)
Definition Expr_or (args : list Value) : Value :=
  if includes_null args then VNull
  else foldl (fun result arg => js_or result arg) (VBool false) args.

(** [Expr.not(b)] *)
Definition Expr_not (b : Value) : Value :=
  if loose_null b then VNull else js_not b.

(** ** Numbers and nullable values in the aggregates *)

(** An aggregate over values of type [T] receives either [null] or a [T]:
    [val !== null] holds exactly for [Some _]. *)
Abbreviation Nullable T := (option T).

Definition not_null {T} (val : Nullable T) : bool :=
  match val with Some _ => true | None => false end.

(** [a + b], [a / b], [a < b] and [a > b] on numbers: the IEEE-754 binary64
    operations; a comparison with [NaN] is false. *)
Definition js_add (a b : float) : float := PrimFloat.add a b.
Definition js_div (a b : float) : float := PrimFloat.div a b.
Definition js_lt (a b : float) : bool := PrimFloat.ltb a b.
Definition js_gt (a b : float) : bool := PrimFloat.ltb b a.

(** ToNumber on a number or [null]: [null] converts to [0]. *)
Definition ToNumber (v : Nullable float) : float := default 0%float v.

(** The number held by a counter that started at [0] and was incremented
    [count] times: each increment is the addition [count + 1] on numbers. *)
Definition Number_of_count (count : nat) : float :=
  Nat.iter count (fun c => PrimFloat.add c 1%float) 0%float.

(** ** Aggregates

    Every method receives the state object and may mutate it; the
    embedding passes the state explicitly: [update] returns the state after
    the call, [finalize] returns its result together with the state after
    the call. *)

(** The base class: [initialize] returns the empty object, [update] does
    nothing to the state it is given and [finalize] returns [null].  The
    subclasses reach [update] through [super] with their own state object,
    hence the polymorphism. *)
Module Aggr.

Record State : Type := mkState { }.

Definition initialize : State := mkState.

Definition update {S V : Type} (state : S) (value : V) : S := state.

Definition finalize {S R : Type} (state : S) : Nullable R * S := (None, state).

End Aggr.

(** COUNT(STAR): [Object.assign(super.initialize(), {count: 0})] is the
    object [{count: 0}], the base state having no property. *)
Module CountStar.

Record State : Type := mkState { count : nat }.

Definition initialize : State := mkState 0.

(** [++state.count] *)
Definition update (state : State) : State := mkState (S (count state)).

Definition finalize (state : State) : nat * State := (count state, state).

End CountStar.

(** COUNT *)
Module Count.

Record State : Type := mkState { count : nat }.

Definition initialize : State := mkState 0.

(** [state.count += (val !== null)]: the boolean converts to [1] or [0]. *)
Definition update {T : Type} (state : State) (val : Nullable T) : State :=
  mkState (count state + Nat.b2n (not_null val)).

Definition finalize (state : State) : nat * State := (count state, state).

End Count.

(** SUM: the state is [{sum: null}]. *)
Module Sum.

Record State : Type := mkState { sum : Nullable float }.

Definition initialize : State := mkState None.

Definition update (state : State) (val : Nullable float) : State :=
  match val with
  | Some v =>
      match sum state with
      | None => mkState (Some v)
      | Some s => mkState (Some (js_add s v))
      end
  | None => state
  end.

Definition finalize (state : State) : Nullable float * State :=
  (sum state, state).

End Sum.

(** AVG extends SUM: the state is [{sum: null, count: 0}]; the inherited
    property lives in [super], on which the methods of [Sum] operate. *)
Module Avg.

Record State : Type := mkState { super : Sum.State; count : nat }.

Definition initialize : State := mkState Sum.initialize 0.

Definition update (state : State) (val : Nullable float) : State :=
  let super' := Sum.update (super state) val in
  mkState super' (count state + Nat.b2n (not_null val)).

(** [if (state.count)]: a count is truthy when it is not [0]. *)
Definition finalize (state : State) : Nullable float * State :=
  if negb (count state =? 0) then
    let '(sum, super') := Sum.finalize (super state) in
    (Some (js_div (ToNumber sum) (Number_of_count (count state))),
     mkState super' (count state))
  else (None, state).

End Avg.

(** The single-value aggregate: the state is [{value: null}]. *)
Module ValueAggr.

Record State (T : Type) : Type := mkState { value : Nullable T }.
Arguments mkState {T} value.
Arguments value {T} s.

Definition initialize {T : Type} : State T := mkState None.

Definition update {T : Type} (selector : T → T → T) (state : State T)
    (val : Nullable T) : State T :=
  let state := Aggr.update state val in
  match val with
  | Some v =>
      match value state with
      | Some current => mkState (Some (selector current v))
      | None => mkState (Some v)
      end
  | None => state
  end.

Definition finalize {T : Type} (state : State T) : Nullable T * State T :=
  (value state, state).

End ValueAggr.

Module Min.

(** [(a, b) => ((a < b) ? a : b)] *)
Definition selector (a b : float) : float := if js_lt a b then a else b.

Definition initialize : ValueAggr.State float := ValueAggr.initialize.

Definition update
    : ValueAggr.State float → Nullable float → ValueAggr.State float :=
  ValueAggr.update selector.

Definition finalize
    : ValueAggr.State float → Nullable float * ValueAggr.State float :=
  ValueAggr.finalize.

End Min.

Module Max.

(** [(a, b) => ((a > b) ? a : b)] *)
Definition selector (a b : float) : float := if js_gt a b then a else b.

Definition initialize : ValueAggr.State float := ValueAggr.initialize.

Definition update
    : ValueAggr.State float → Nullable float → ValueAggr.State float :=
  ValueAggr.update selector.

Definition finalize
    : ValueAggr.State float → Nullable float * ValueAggr.State float :=
  ValueAggr.finalize.

End Max.

Module First.

(** [(a, b) => a] *)
Definition selector {T : Type} (a b : T) : T := a.

Definition initialize {T : Type} : ValueAggr.State T := ValueAggr.initialize.

Definition update {T : Type}
    : ValueAggr.State T → Nullable T → ValueAggr.State T :=
  ValueAggr.update selector.

Definition finalize {T : Type}
    : ValueAggr.State T → Nullable T * ValueAggr.State T :=
  ValueAggr.finalize.

End First.

Module Last.

(** [(a, b) => b] *)
Definition selector {T : Type} (a b : T) : T := b.

Definition initialize {T : Type} : ValueAggr.State T := ValueAggr.initialize.

Definition update {T : Type}
    : ValueAggr.State T → Nullable T → ValueAggr.State T :=
  ValueAggr.update selector.

Definition finalize {T : Type}
    : ValueAggr.State T → Nullable T * ValueAggr.State T :=
  ValueAggr.finalize.

End Last.

(** ARRAY_AGG: the state is [{value: null}]; the array is allocated by the
    first [update] and every value, [null] included, is pushed. *)
Module ArrayAgg.

Record State (T : Type) : Type :=
  mkState { value : Nullable (list (Nullable T)) }.
Arguments mkState {T} value.
Arguments value {T} s.

Definition initialize {T : Type} : State T := mkState None.

Definition update {T : Type} (state : State T) (val : Nullable T) : State T :=
  let array := match value state with None => [] | Some array => array end in
  mkState (Some (array ++ [val])).

Definition finalize {T : Type} (state : State T)
    : Nullable (list (Nullable T)) * State T :=
  (value state, state).

End ArrayAgg.

(** STRING_AGG: the constructor extracts the separator from [args[1]] and
    passes [(a, b) => (a + sep + b)] to [ValueAggr].  [ToString_other]
    stands for the string conversion of a separator that is not a string,
    which is left uninterpreted. *)
Module StringAgg.

Definition ToString (ToString_other : Value → string) (v : Value) : string :=
  match v with VStr s => s | _ => ToString_other v end.

(** [arg2.constant]: among the expression nodes only a [ConstExpr] has the
    property. *)
Definition constant_of (arg2 : Expr) : Value :=
  match arg2 with ConstExpr constant => constant | _ => VUndefined end.

(** [const arg2 = args[1] || {constant: ','};
     const sep = arg2.constant || ',';] *)
Definition sep (args : list Expr) : Value :=
  let constant :=
    match args !! 1 with
    | Some arg2 => constant_of arg2
    | None => VStr ","
    end in
  js_or constant (VStr ",").

(** [(a, b) => (a + sep + b)] *)
Definition selector (ToString_other : Value → string) (args : list Expr)
    (a b : string) : string :=
  (a +:+ ToString ToString_other (sep args)) +:+ b.

Definition initialize : ValueAggr.State string := ValueAggr.initialize.

Definition update (ToString_other : Value → string) (args : list Expr)
    : ValueAggr.State string → Nullable string → ValueAggr.State string :=
  ValueAggr.update (selector ToString_other args).

Definition finalize
    : ValueAggr.State string → Nullable string * ValueAggr.State string :=
  ValueAggr.finalize.

End StringAgg.

(** The ten aggregates of the library behind one interface. *)
Record AggrClass : Type := mkAggr {
  Val : Type;
  State : Type;
  Result : Type;
  initialize : State;
  update : State → Val → State;
  finalize : State → Result * State
}.

Section Library.
Context (T : Type) (ToString_other : Value → string) (args : list Expr).

Definition CountStar_class : AggrClass :=
  mkAggr unit _ _ CountStar.initialize (fun state _ => CountStar.update state)
         CountStar.finalize.
Definition Count_class : AggrClass :=
  mkAggr (Nullable T) _ _ Count.initialize Count.update Count.finalize.
Definition Sum_class : AggrClass :=
  mkAggr _ _ _ Sum.initialize Sum.update Sum.finalize.
Definition Avg_class : AggrClass :=
  mkAggr _ _ _ Avg.initialize Avg.update Avg.finalize.
Definition Min_class : AggrClass :=
  mkAggr _ _ _ Min.initialize Min.update Min.finalize.
Definition Max_class : AggrClass :=
  mkAggr _ _ _ Max.initialize Max.update Max.finalize.
Definition First_class : AggrClass :=
  mkAggr (Nullable T) _ _ First.initialize First.update First.finalize.
Definition Last_class : AggrClass :=
  mkAggr (Nullable T) _ _ Last.initialize Last.update Last.finalize.
Definition StringAgg_class : AggrClass :=
  mkAggr _ _ _ StringAgg.initialize (StringAgg.update ToString_other args)
         StringAgg.finalize.
Definition ArrayAgg_class : AggrClass :=
  mkAggr (Nullable T) _ _ ArrayAgg.initialize ArrayAgg.update ArrayAgg.finalize.

Definition library : list AggrClass :=
  [ CountStar_class; Count_class; Sum_class; Avg_class; Min_class;
    Max_class; First_class; Last_class; StringAgg_class; ArrayAgg_class ].
End Library.

(** The state reached from [initialize] by one [update] per value. *)
Definition run (A : AggrClass) (vals : list (Val A)) : State A :=
  foldl (update A) (initialize A) vals.

(** ** Reads performed by an evaluation

    The evaluation once more, with a log of every [column.data[selid]] it
    performs, in order, up to and including a read that throws: a logged
    computation is the list of its reads and its result.  The result is the
    one of [evaluate] (lemma [evaluate_log_result]). *)
Definition logged (A : Type) : Type := (list (Object * nat) * result A)%type.

#[global] Instance logged_ret : MRet logged := fun A a => ([], Ok a).






(** ** Specification-side notions *)

(** [n] is the maximum of the data lengths of the columns of [namespace]
    (and [0] for the empty namespace). *)
Definition max_column_length (namespace : Namespace) (n : nat) : Prop :=
  (∀ name column, namespace !! name = Some column → length (data column) ≤ n)
  ∧ (n = 0 ∨ ∃ name column,
        namespace !! name = Some column ∧ length (data column) = n).

(** The Columns among the values that the arguments evaluated to, when all
    of them are Columns. *)
Definition columns_of (inputs : list Object) : option (list Column) :=
  mapM (fun input =>
          match input with
          | ColumnObj column => Some column
          | InheritedObj _ => None
          end) inputs.

(** The non-null values of an update sequence, in update order. *)
Definition non_null {T} (vals : list (Nullable T)) : list T := omap id vals.

(** The exact value of a finite number, as a rational. *)
Definition exact (x : float) : Nullable Q :=
  match Prim2SF x with
  | S754_zero _ => Some 0%Q
  | S754_finite s m e =>
      Some ((if s then -1 else 1) * (Zpos m # 1) * 2 ^ e)%Q
  | S754_infinity _ => None
  | S754_nan => None
  end.

(** The number [x] is finite and its value is the rational [q]. *)
Definition has_value (x : float) (q : Q) : Prop :=
  match exact x with
  | Some q' => (q' == q)%Q
  | None => False
  end.

(** A boolean or [null] as a JavaScript value. *)
Definition of_bool3 (b : Nullable bool) : Value :=
  match b with Some b => VBool b | None => VNull end.

(** The selected value after a sequence of updates: [null] as long as no
    non-null value was seen, and afterwards the selector folded from the
    first non-null value over the later ones. *)
Definition selected {T} (selector : T → T → T) (xs : list T) : Nullable T :=
  match xs with
  | [] => None
  | x :: xs' => Some (foldl selector x xs')
  end.

(** The smallest, respectively largest, element of a list of numbers, or
    [null] for the empty list; [<=] is the comparison of numbers. *)
Definition smallest_of (xs : list float) (r : Nullable float) : Prop :=
  match r with
  | None => xs = []
  | Some m => m ∈ xs ∧ ∀ x, x ∈ xs → PrimFloat.leb m x = true
  end.

Definition largest_of (xs : list float) (r : Nullable float) : Prop :=
  match r with
  | None => xs = []
  | Some m => m ∈ xs ∧ ∀ x, x ∈ xs → PrimFloat.leb x m = true
  end.

(** ** Sample inputs *)

Definition sample_namespace : Namespace :=
  <["a" := mkColumn None [VNum 1; VNum 2; VNum 3]]>
    (<["b" := mkColumn None [VStr "x"; VNull; VStr "z"]]> ∅).

Definition sample_func (values : list Value) : Value := VArr values.

Definition sample_args : list Expr :=
  [RefExpr "a"; RefExpr "b"; ConstExpr (VBool true)].

Definition sample_inputs : list Column :=
  [ mkColumn None [VNum 1; VNum 2; VNum 3];
    mkColumn None [VStr "x"; VNull; VStr "z"];
    mkColumn (Some "boolean") [VBool true; VBool true; VBool true] ].

(** ** Further operations of the two modules *)

(** [Expr.nullWrapper_(f, ...args)]: [args.shift()] takes the function off
    the front, the remaining arguments are tested with [includes(null)]. *)
Definition Expr_nullWrapper_ (f : list Value → Value) (args : list Value)
    : Value :=
  if includes_null args then VNull else f args.

(** The wrapper at one argument of a type without [null]: the shape of
    [Expr.trim], [Expr.ltrim] and [Expr.rtrim], whose argument is a string
    or [null]. *)
Definition nullWrapper1 {A B : Type} (f : A → B) (arg : Nullable A)
    : Nullable B :=
  match arg with
  | Some a => Some (f a)
  | None => None
  end.

(** Strings are sequences of code units; [is_space] tells which code units
    are white space or line terminators, the class that both [\s] and
    [String.prototype.trim] use. *)
Fixpoint all_spaces (is_space : Ascii.ascii → bool) (s : string) : bool :=
  match s with
  | EmptyString => true
  | String c s' => is_space c && all_spaces is_space s'
  end.

(** [s.replace(/^[\s]+/, "")]: the longest run of white space at the start
    is removed. *)
Fixpoint trim_start (is_space : Ascii.ascii → bool) (s : string) : string :=
  match s with
  | EmptyString => EmptyString
  | String c s' => if is_space c then trim_start is_space s' else s
  end.

(** [s.replace(/[\s]+$/, "")]: the match is searched from the left, and the
    first position from which only white space follows up to the end is
    where the string is cut. *)
Fixpoint trim_end (is_space : Ascii.ascii → bool) (s : string) : string :=
  match s with
  | EmptyString => EmptyString
  | String c s' =>
      if is_space c && all_spaces is_space s' then EmptyString
      else String c (trim_end is_space s')
  end.

(** The number of white-space code units at the start, respectively at the
    end, of a string. *)
Fixpoint leading_spaces (is_space : Ascii.ascii → bool) (s : string) : nat :=
  match s with
  | EmptyString => 0
  | String c s' => if is_space c then S (leading_spaces is_space s') else 0
  end.

Fixpoint trailing_spaces (is_space : Ascii.ascii → bool) (s : string) : nat :=
  match s with
  | EmptyString => 0
  | String c s' =>
      if is_space c && all_spaces is_space s' then S (String.length s')
      else trailing_spaces is_space s'
  end.

(** [s.trim()]: the substring from the first code unit that is not white
    space up to and including the last one that is not. *)
Definition String_trim (is_space : Ascii.ascii → bool) (s : string) : string :=
  let start := leading_spaces is_space s in
  let stop := String.length s - trailing_spaces is_space s in
  String.substring start (stop - start) s.

(** [Expr.trim], [Expr.ltrim] and [Expr.rtrim] *)
Definition Expr_trim (is_space : Ascii.ascii → bool) (untrimmed : Nullable string)
    : Nullable string :=
  nullWrapper1 (String_trim is_space) untrimmed.

Definition Expr_ltrim (is_space : Ascii.ascii → bool) (untrimmed : Nullable string)
    : Nullable string :=
  nullWrapper1 (trim_start is_space) untrimmed.

Definition Expr_rtrim (is_space : Ascii.ascii → bool) (untrimmed : Nullable string)
    : Nullable string :=
  nullWrapper1 (trim_end is_space) untrimmed.

(** ** Further specification-side notions *)

(** One more than the largest index of a selection, [0] for the empty one. *)
Definition extent (selection : Selection) : nat :=
  foldr (fun selid m => S selid `max` m) 0 selection.

(** The names referenced by an expression tree, in the order in which the
    evaluation reaches them. *)
Fixpoint references (e : Expr) : list string :=
  match e with
  | FuncExpr _ args => concat (map references args)
  | RefExpr reference => [reference]
  | ConstExpr _ => []
  end.


(** The first string does not start, respectively end, with white space. *)
Definition starts_with_space (is_space : Ascii.ascii → bool) (s : string) : bool :=
  match s with
  | EmptyString => false
  | String c _ => is_space c
  end.

Fixpoint ends_with_space (is_space : Ascii.ascii → bool) (s : string) : bool :=
  match s with
  | EmptyString => false
  | String c EmptyString => is_space c
  | String _ s' => ends_with_space is_space s'
  end.

(** Combining the results of two runs of a single-value aggregate. *)
Definition merge {T : Type} (selector : T → T → T) (a b : Nullable T)
    : Nullable T :=
  match a, b with
  | Some x, Some y => Some (selector x y)
  | Some x, None => Some x
  | None, _ => b
  end.

(** Numbers, or [null]s, that are equal as numbers ([0] and [-0] are). *)
Definition same_number (a b : Nullable float) : Prop :=
  match a, b with
  | Some x, Some y => PrimFloat.eqb x y = true
  | None, None => True
  | _, _ => False
  end.



(** ** Proof automation *)

(** Case analysis on every comparison of integers in the goal. *)
Ltac cmp_cases :=
  repeat match goal with
  | |- context [Z.compare ?a ?b] => destruct (Z.compare_spec a b)
  | H : context [Z.compare ?a ?b] |- _ => destruct (Z.compare_spec a b)
  | |- context [Pos.compare_cont Eq ?a ?b] =>
      change (Pos.compare_cont Eq a b) with (Pos.compare a b);
      destruct (Pos.compare_spec a b)
  | H : context [Pos.compare_cont Eq ?a ?b] |- _ =>
      change (Pos.compare_cont Eq a b) with (Pos.compare a b) in H;
      destruct (Pos.compare_spec a b)
  end.

(** * Properties of the expression evaluator *)

(** ** Arrays *)

Lemma js_set_length_lt (a : list Value) i v :
  i < length a → length (js_set a i v) = length a.
Proof.
  intros Hi. unfold js_set. rewrite decide_True by done. apply length_insert.
Qed.

Lemma js_set_length_ge (a : list Value) i v :
  length a ≤ i → length (js_set a i v) = S i.
Proof.
  intros Hi. unfold js_set. rewrite decide_False by lia.
  rewrite !length_app, length_replicate. simpl. lia.
Qed.

Lemma js_set_lookup_eq (a : list Value) i v :
  i < length a → js_set a i v !! i = Some v.
Proof.
  intros Hi. unfold js_set. rewrite decide_True by done.
  by apply list_lookup_insert_eq.
Qed.

Lemma js_set_lookup_ne (a : list Value) i j v :
  i < length a → i ≠ j → js_set a i v !! j = a !! j.
Proof.
  intros Hi Hne. unfold js_set. rewrite decide_True by done.
  by apply list_lookup_insert_ne.
Qed.

(** Writing the rows of an in-range selection: the length is kept, a
    selected row holds the value computed for it and the other rows are
    untouched. *)
Section WriteRows.
Context (g : nat → Value).

Lemma write_rows_length (selection : Selection) (out : list Value) :
  Forall (fun selid => selid < length out) selection →
  length (foldl (write_row g) out selection) = length out.
Proof.
  revert out. induction selection as [|selid selection IH]; intros out Hsel.
  - done.
  - apply Forall_cons in Hsel as [Hlt Hsel]. simpl.
    rewrite IH; unfold write_row.
    + by apply js_set_length_lt.
    + rewrite js_set_length_lt by done. done.
Qed.

Lemma write_rows_unselected (selection : Selection) (out : list Value) i :
  Forall (fun selid => selid < length out) selection →
  i ∉ selection →
  foldl (write_row g) out selection !! i = out !! i.
Proof.
  revert out. induction selection as [|selid selection IH]; intros out Hsel Hi.
  - done.
  - apply Forall_cons in Hsel as [Hlt Hsel].
    apply not_elem_of_cons in Hi as [Hne Hi]. simpl.
    rewrite IH; [|unfold write_row; by rewrite js_set_length_lt|done].
    unfold write_row. by rewrite js_set_lookup_ne.
Qed.

Lemma write_rows_selected (selection : Selection) (out : list Value) i :
  Forall (fun selid => selid < length out) selection →
  i ∈ selection →
  foldl (write_row g) out selection !! i = Some (g i).
Proof.
  revert out. induction selection as [|selid selection IH]; intros out Hsel Hin.
  - by apply elem_of_nil in Hin.
  - apply Forall_cons in Hsel as [Hlt Hsel]. simpl.
    assert (Hsel' : Forall (fun s => s < length (write_row g out selid)) selection).
    { unfold write_row. by rewrite js_set_length_lt. }
    destruct (decide (i ∈ selection)) as [Hi|Hi].
    + by apply IH.
    + apply elem_of_cons in Hin as [->|Hin]; [|done].
      rewrite write_rows_unselected by done.
      unfold write_row. by apply js_set_lookup_eq.
Qed.
End WriteRows.

(** ** The effective row count *)

Lemma foldl_max_bounds {A} (g : A → nat) (l : list A) (a : nat) :
  let n := foldl (fun count x => count `max` g x) a l in
  a ≤ n ∧ (∀ x, x ∈ l → g x ≤ n) ∧ (n = a ∨ ∃ x, x ∈ l ∧ g x = n).
Proof.
  revert a. induction l as [|y l IH]; intros a; simpl.
  - split; [lia|]. split; [|by left].
    intros x Hx. by apply elem_of_nil in Hx.
  - destruct (IH (a `max` g y)) as (Hle & Hall & Hex).
    split; [lia|]. split.
    + intros x Hx. apply elem_of_cons in Hx as [->|Hx]; [lia|by apply Hall].
    + destruct Hex as [Heq|(x & Hx & Heq)].
      * destruct (Nat.max_spec a (g y)) as [[_ Hm]|[_ Hm]].
        -- right. exists y. split; [left|]. lia.
        -- left. lia.
      * right. exists x. split; [by right|done].
Qed.

Lemma elem_of_Object_keys (namespace : Namespace) name :
  name ∈ Object_keys namespace ↔ is_Some (namespace !! name).
Proof.
  unfold Object_keys. rewrite list_elem_of_fmap. split.
  - intros ([k column] & -> & Hin). apply elem_of_map_to_list in Hin. eauto.
  - intros [column Hcol]. exists (name, column). split; [done|].
    by apply elem_of_map_to_list.
Qed.

(** The count computed by the two [evaluate] methods is the maximum data
    length over the columns of the namespace. *)
Lemma row_count_max (namespace : Namespace) :
  max_column_length namespace (row_count namespace).
Proof.
  unfold max_column_length, row_count.
  set (g := fun name : string =>
              from_option (fun column => length (data column)) 0
                          (namespace !! name)).
  destruct (foldl_max_bounds g (Object_keys namespace) 0) as (_ & Hall & Hex).
  split.
  - intros name column Hcol.
    specialize (Hall name). unfold g at 1 in Hall. rewrite Hcol in Hall.
    apply Hall, elem_of_Object_keys. eauto.
  - destruct Hex as [Heq|(name & Hin & Heq)]; [by left|right].
    apply elem_of_Object_keys in Hin as [column Hcol].
    exists name, column. split; [done|].
    unfold g at 1 in Heq. by rewrite Hcol in Heq.
Qed.

Lemma max_column_length_unique (namespace : Namespace) n m :
  max_column_length namespace n → max_column_length namespace m → n = m.
Proof.
  intros [Hn1 Hn2] [Hm1 Hm2].
  destruct Hn2 as [->|(x & c & Hx & <-)], Hm2 as [->|(y & d & Hy & <-)].
  - done.
  - specialize (Hn1 _ _ Hy). lia.
  - specialize (Hm1 _ _ Hx). lia.
  - specialize (Hn1 _ _ Hy). specialize (Hm1 _ _ Hx). lia.
Qed.

(** ** Evaluating the arguments of a function node *)

Lemma mapM_Ok_Forall2 {A B} (f : A → result B) (l : list A) (k : list B) :
  mapM f l = Ok k ↔ Forall2 (fun a b => f a = Ok b) l k.
Proof.
  revert k. induction l as [|a l IH]; intros k; simpl.
  - split.
    + intros [= <-]. constructor.
    + intros H. by inversion H.
  - split.
    + destruct (f a) as [b|e] eqn:Hfa; simpl; [|done].
      destruct (mapM f l) as [bs|e] eqn:Hl; simpl; [|done].
      intros [= <-]. constructor; [done|]. by apply IH.
    + intros H. inversion H as [|? b ? bs Hfa Hrest]; subst.
      rewrite Hfa. simpl. apply IH in Hrest. rewrite Hrest. done.
Qed.

Lemma mapM_read_row_columns (columns : list Column) (selid : nat) :
  mapM (fun input => read_row input selid) (ColumnObj <$> columns)
  = Ok (map (fun column => js_get (data column) selid) columns).
Proof.
  induction columns as [|column columns IH]; [done|].
  rewrite fmap_cons.
  change (mapM ?f (?x :: ?l)) with (y ← f x; k ← mapM f l; mret (y :: k)).
  rewrite IH. done.
Qed.

Lemma apply_row_objects_columns (func : list Value → Value)
    (columns : list Column) (out : list Value) (selid : nat) :
  apply_row_objects func (ColumnObj <$> columns) out selid
  = Ok (apply_row func columns out selid).
Proof.
  unfold apply_row_objects. rewrite mapM_read_row_columns. reflexivity.
Qed.

Lemma reduce_result_columns (func : list Value → Value) (columns : list Column)
    (selection : Selection) (out : list Value) :
  reduce_result (apply_row_objects func (ColumnObj <$> columns)) selection out
  = Ok (foldl (apply_row func columns) out selection).
Proof.
  revert out. induction selection as [|selid selection IH]; intros out.
  - done.
  - change (reduce_result ?f (?b :: ?l) ?a)
      with (a' ← f a b; reduce_result f l a').
    rewrite apply_row_objects_columns. exact (IH _).
Qed.

Lemma columns_of_Some (inputs : list Object) (columns : list Column) :
  columns_of inputs = Some columns ↔ inputs = ColumnObj <$> columns.
Proof.
  unfold columns_of. revert columns.
  induction inputs as [|input inputs IH]; intros columns; simpl.
  - split; [by intros [= <-]|]. by destruct columns.
  - destruct input as [column|name]; simpl.
    + destruct (mapM _ inputs) as [cols|] eqn:Hcols; simpl.
      * split.
        -- intros [= <-]. simpl. f_equal. by apply IH.
        -- destruct columns as [|c columns]; [done|]. intros [= -> Hrest].
           apply IH in Hrest. by injection Hrest as ->.
      * split; [done|]. destruct columns as [|c columns]; [done|].
        intros [= _ Hrest]. by apply IH in Hrest.
    + split; [done|]. by destruct columns.
Qed.

Lemma mapM_read_row_inherited (inputs : list Object) (selid : nat) :
  columns_of inputs = None →
  mapM (fun input => read_row input selid) inputs = Throw TypeError.
Proof.
  unfold columns_of. induction inputs as [|input inputs IH]; simpl; [done|].
  destruct input as [column|name]; simpl; [|done].
  destruct (mapM _ inputs) as [cols|]; simpl; [done|].
  intros _. by rewrite IH.
Qed.

(** When an argument evaluated to an inherited value, the first selected
    row throws; without a selected row nothing is read. *)
Lemma reduce_result_inherited (func : list Value → Value) (inputs : list Object)
    (selection : Selection) (out : list Value) :
  columns_of inputs = None →
  reduce_result (apply_row_objects func inputs) selection out
  = match selection with [] => Ok out | _ :: _ => Throw TypeError end.
Proof.
  intros Hinh. destruct selection as [|selid selection]; simpl; [done|].
  unfold apply_row_objects. by rewrite mapM_read_row_inherited.
Qed.

Lemma evaluate_FuncExpr_Ok func args namespace selection (inputs : list Column) :
  Forall2 (fun arg (column : Column) =>
             evaluate arg namespace selection = Ok (ColumnObj column))
          args inputs →
  evaluate (FuncExpr func args) namespace selection =
  Ok (ColumnObj
        (mkColumn None
           (foldl (apply_row func inputs)
                  (Array_fill (row_count namespace) VNull) selection))).
Proof.
  intros Hargs.
  assert (Hmap : mapM (fun arg => evaluate arg namespace selection) args
                 = Ok (ColumnObj <$> inputs)).
  { apply mapM_Ok_Forall2. by apply Forall2_fmap_r. }
  simpl. rewrite Hmap. simpl. by rewrite reduce_result_columns.
Qed.

Lemma Expr_nested_ind (P : Expr → Prop) :
  (∀ func args, Forall P args → P (FuncExpr func args)) →
  (∀ reference, P (RefExpr reference)) →
  (∀ constant, P (ConstExpr constant)) →
  ∀ e, P e.
Proof.
  intros Hfunc Href Hconst. fix IH 1. intros [func args|reference|constant].
  - apply Hfunc. induction args as [|arg args IHargs]; constructor; auto.
  - apply Href.
  - apply Hconst.
Qed.

Example sample_evaluate :
  evaluate (FuncExpr sample_func sample_args) sample_namespace [2; 0; 2] =
  Ok (ColumnObj
        (mkColumn None [ VArr [VNum 1; VStr "x"; VBool true]; VNull;
                         VArr [VNum 3; VStr "z"; VBool true] ])).
Proof. vm_compute. reflexivity. Qed.

(** ** Constant nodes *)

(** C5: a constant node evaluates to a column whose length is the maximum
    data length over the columns of the namespace and whose every entry is
    the constant; the selection has no influence on the result. *)
Theorem ConstExpr_evaluate_fill (namespace : Namespace) (selection : Selection)
    (constant : Value) :
  ∃ column : Column,
    evaluate (ConstExpr constant) namespace selection = Ok (ColumnObj column)
    ∧ max_column_length namespace (length (data column))
    ∧ Forall (fun entry => entry = constant) (data column)
    ∧ ∀ selection',
        evaluate (ConstExpr constant) namespace selection'
        = Ok (ColumnObj column).
Proof.
  eexists. split; [reflexivity|]. simpl. unfold Array_fill.
  rewrite length_replicate. split; [apply row_count_max|]. split; [|done].
  by apply Forall_replicate.
Qed.

(** ** Reference nodes *)

(** C2 on the code: a reference node returns the Column stored under its
    name when the name is a key of the namespace and throws the
    [ReferenceError] carrying the name when the name is neither a key nor a
    property name of [Object.prototype]; for a name that is not a key but
    that the namespace object inherits, such as ["toString"], nothing is
    thrown and the inherited value, which is not a Column, is returned. *)
Theorem RefExpr_evaluate_lookup (namespace : Namespace) (selection : Selection)
    (x : string) :
  (∀ column, namespace !! x = Some column →
     evaluate (RefExpr x) namespace selection = Ok (ColumnObj column))
  ∧ (namespace !! x = None → inherits x = false →
       evaluate (RefExpr x) namespace selection =
       Throw (ReferenceError ("Unknown column: " +:+ x)))
  ∧ (namespace !! x = None → inherits x = true →
       evaluate (RefExpr x) namespace selection = Ok (InheritedObj x))
  ∧ ((∅ : Namespace) !! "toString" = None
     ∧ evaluate (RefExpr "toString") ∅ selection = Ok (InheritedObj "toString")).
Proof.
  simpl. destruct (namespace !! x) as [column|] eqn:Hx.
  - split; [by intros ? [= <-]|]. split; [done|]. split; [done|]. done.
  - split; [done|]. split; [by intros _ ->|]. split; [by intros _ ->|]. done.
Qed.

Lemma RefExpr_evaluate_lookup_witness :
  sample_namespace !! "c" = None
  ∧ inherits "c" = false
  ∧ evaluate (RefExpr "c") sample_namespace [0] =
    Throw (ReferenceError "Unknown column: c")
  ∧ sample_namespace !! "toString" = None
  ∧ inherits "toString" = true
  ∧ evaluate (RefExpr "toString") sample_namespace [0] =
    Ok (InheritedObj "toString")
  ∧ sample_namespace !! "a" = Some (mkColumn None [VNum 1; VNum 2; VNum 3])
  ∧ evaluate (RefExpr "a") sample_namespace [0] =
    Ok (ColumnObj (mkColumn None [VNum 1; VNum 2; VNum 3])).
Proof.
  split; [vm_compute; reflexivity|]. split; [vm_compute; reflexivity|]. split.
  { apply (RefExpr_evaluate_lookup sample_namespace [0] "c");
      vm_compute; reflexivity. }
  split; [vm_compute; reflexivity|]. split; [vm_compute; reflexivity|]. split.
  { apply (RefExpr_evaluate_lookup sample_namespace [0] "toString");
      vm_compute; reflexivity. }
  split; [vm_compute; reflexivity|].
  apply (RefExpr_evaluate_lookup sample_namespace [0] "a").
  vm_compute; reflexivity.
Defined.

(** ** Function nodes *)

(** C1, as the code has it: when every argument evaluates to a column and
    every index of the selection is below the effective row count, a
    function node evaluates to a column of that length, in which a selected
    row holds the function applied to the values read at that row from the
    argument columns and every other row is [null]. *)
Theorem FuncExpr_evaluate_rows (namespace : Namespace) (selection : Selection)
    (func : list Value → Value) (args : list Expr) (inputs : list Column) :
  Forall2 (fun arg (column : Column) =>
             evaluate arg namespace selection = Ok (ColumnObj column))
          args inputs →
  Forall (fun selid => selid < row_count namespace) selection →
  ∃ column : Column,
    evaluate (FuncExpr func args) namespace selection = Ok (ColumnObj column)
    ∧ length (data column) = row_count namespace
    ∧ max_column_length namespace (length (data column))
    ∧ (∀ i, i ∈ selection →
         data column !! i =
         Some (func (map (fun input => js_get (data input) i) inputs)))
    ∧ (∀ i, i < row_count namespace → i ∉ selection →
         data column !! i = Some VNull).
Proof.
  intros Hargs Hsel.
  rewrite (evaluate_FuncExpr_Ok _ _ _ _ _ Hargs). eexists. split; [reflexivity|].
  simpl.
  assert (Hsel' : Forall (fun selid =>
             selid < length (Array_fill (row_count namespace) VNull)) selection).
  { unfold Array_fill. by rewrite length_replicate. }
  assert (Hlen : length (foldl (apply_row func inputs)
                   (Array_fill (row_count namespace) VNull) selection)
                 = row_count namespace).
  { unfold apply_row.
    rewrite (write_rows_length (row_value func inputs)) by done.
    unfold Array_fill. apply length_replicate. }
  split; [done|]. split; [rewrite Hlen; apply row_count_max|]. split.
  - intros i Hi. unfold apply_row.
    by rewrite (write_rows_selected (row_value func inputs)).
  - intros i Hlt Hi. unfold apply_row.
    rewrite (write_rows_unselected (row_value func inputs)) by done.
    unfold Array_fill. by apply lookup_replicate_2.
Qed.

Lemma FuncExpr_evaluate_rows_witness :
  Forall2 (fun arg (column : Column) =>
             evaluate arg sample_namespace [2; 0; 2] = Ok (ColumnObj column))
          sample_args sample_inputs
  ∧ Forall (fun selid => selid < row_count sample_namespace) [2; 0; 2]
  ∧ ∃ column : Column,
      evaluate (FuncExpr sample_func sample_args) sample_namespace [2; 0; 2]
      = Ok (ColumnObj column)
      ∧ length (data column) = row_count sample_namespace
      ∧ max_column_length sample_namespace (length (data column))
      ∧ (∀ i, i ∈ [2; 0; 2] →
           data column !! i =
           Some (sample_func (map (fun input => js_get (data input) i)
                                  sample_inputs)))
      ∧ (∀ i, i < row_count sample_namespace → i ∉ [2; 0; 2] →
           data column !! i = Some VNull).
Proof.
  assert (Hargs : Forall2 (fun arg (column : Column) =>
            evaluate arg sample_namespace [2; 0; 2] = Ok (ColumnObj column))
            sample_args sample_inputs).
  { repeat constructor. }
  assert (Hsel : Forall (fun selid => selid < row_count sample_namespace)
                        [2; 0; 2]).
  { repeat constructor; vm_compute; lia. }
  split; [exact Hargs|]. split; [exact Hsel|].
  exact (FuncExpr_evaluate_rows sample_namespace [2; 0; 2] sample_func
           sample_args sample_inputs Hargs Hsel).
Defined.

(** C1, as stated, fails in two ways: a selected index at or beyond the
    effective row count extends the output array, so that its length is no
    longer the row count and the skipped rows read as [undefined] instead of
    [null]; and an argument that throws makes the function node throw. *)
Lemma FuncExpr_evaluate_rows_counterexample :
  (∃ column : Column,
     evaluate (FuncExpr sample_func []) sample_namespace [5] = Ok (ColumnObj column)
     ∧ length (data column) = 6
     ∧ length (data column) ≠ row_count sample_namespace
     ∧ (4 ∉ [5])
     ∧ data column !! 4 = Some VUndefined
     ∧ data column !! 4 ≠ Some VNull)
  ∧ ¬ (∃ result : Object,
         evaluate (FuncExpr sample_func [RefExpr "c"]) sample_namespace [0]
         = Ok result).
Proof.
  split.
  - eexists. split; [vm_compute; reflexivity|]. simpl.
    split; [reflexivity|]. split; [vm_compute; lia|]. split.
    + intros Hin. apply list_elem_of_singleton in Hin. discriminate.
    + split; [reflexivity|discriminate].
  - intros [column Hcol]. vm_compute in Hcol. discriminate.
Qed.

(** ** Reads of the argument columns *)


(** * Properties of the scalar library *)

Lemma includes_null_of_bool3 (bs : list (Nullable bool)) :
  includes_null (of_bool3 <$> bs) = existsb (fun b => negb (not_null b)) bs.
Proof.
  unfold includes_null. induction bs as [|[b|] bs IH]; simpl; [done| |done].
  exact IH.
Qed.

Lemma foldl_js_and (bs : list bool) (init : bool) :
  foldl (fun result arg => js_and result arg) (VBool init) (VBool <$> bs)
  = VBool (fold_left andb bs init).
Proof.
  revert init. induction bs as [|b bs IH]; intros init; simpl; [done|].
  unfold js_and at 2. simpl. destruct init; simpl; apply IH.
Qed.

Lemma foldl_js_or (bs : list bool) (init : bool) :
  foldl (fun result arg => js_or result arg) (VBool init) (VBool <$> bs)
  = VBool (fold_left orb bs init).
Proof.
  revert init. induction bs as [|b bs IH]; intros init; simpl; [done|].
  unfold js_or at 2. simpl. destruct init; simpl; apply IH.
Qed.

Lemma of_bool3_all_Some (bs : list (Nullable bool)) :
  existsb (fun b => negb (not_null b)) bs = false →
  of_bool3 <$> bs = VBool <$> non_null bs.
Proof.
  induction bs as [|[b|] bs IH]; simpl; intros H; [done| |done].
  unfold non_null in *. simpl. f_equal. by apply IH.
Qed.

(** C8: on booleans and [null], [Expr.and] and [Expr.or] return [null] when
    an argument is [null] and otherwise fold the boolean conjunction from
    [true], respectively the disjunction from [false], over the arguments
    from the left; [Expr.not] maps [null] to [null] and a boolean to its
    negation. *)
Theorem three_valued_logic (bs : list (Nullable bool)) (b : bool) :
  Expr_and (of_bool3 <$> bs) =
    (if existsb (fun b => negb (not_null b)) bs then VNull
     else VBool (fold_left andb (non_null bs) true))
  ∧ Expr_or (of_bool3 <$> bs) =
    (if existsb (fun b => negb (not_null b)) bs then VNull
     else VBool (fold_left orb (non_null bs) false))
  ∧ Expr_not VNull = VNull
  ∧ Expr_not (VBool b) = VBool (negb b).
Proof.
  unfold Expr_and, Expr_or. rewrite includes_null_of_bool3.
  destruct (existsb _ bs) eqn:Hnull.
  - by destruct b.
  - rewrite (of_bool3_all_Some bs Hnull), foldl_js_and, foldl_js_or.
    by destruct b.
Qed.

(** * Properties of the aggregates *)

Lemma non_null_snoc {T} (vals : list (Nullable T)) (val : Nullable T) :
  non_null (vals ++ [val]) =
  non_null vals ++ match val with Some v => [v] | None => [] end.
Proof. unfold non_null. rewrite omap_app. by destruct val. Qed.

Lemma selected_snoc {T} (selector : T → T → T) (xs : list T) (v : T) :
  selected selector (xs ++ [v]) =
  Some (match selected selector xs with
        | Some current => selector current v
        | None => v
        end).
Proof. destruct xs as [|x xs]; simpl; [done|]. by rewrite foldl_snoc. Qed.

Lemma ValueAggr_run {T} (selector : T → T → T) (vals : list (Nullable T)) :
  ValueAggr.value (foldl (ValueAggr.update selector) ValueAggr.initialize vals)
  = selected selector (non_null vals).
Proof.
  induction vals as [|val vals IH] using rev_ind; [done|].
  rewrite foldl_snoc, non_null_snoc. destruct val as [v|]; simpl.
  - rewrite selected_snoc, <- IH.
    by destruct (ValueAggr.value _).
  - by rewrite app_nil_r.
Qed.

Lemma Sum_run (vals : list (Nullable float)) :
  Sum.sum (foldl Sum.update Sum.initialize vals) = selected js_add (non_null vals).
Proof.
  induction vals as [|val vals IH] using rev_ind; [done|].
  rewrite foldl_snoc, non_null_snoc. destruct val as [v|]; simpl.
  - rewrite selected_snoc, <- IH.
    by destruct (Sum.sum _).
  - by rewrite app_nil_r.
Qed.

Lemma Avg_run (vals : list (Nullable float)) :
  foldl Avg.update Avg.initialize vals =
  Avg.mkState (foldl Sum.update Sum.initialize vals) (length (non_null vals)).
Proof.
  induction vals as [|val vals IH] using rev_ind; [done|].
  rewrite !foldl_snoc, non_null_snoc, IH. unfold Avg.update. simpl.
  f_equal. rewrite length_app. by destruct val.
Qed.

(** AVG finalizes to the quotient of the running sum and the count. *)
Lemma Avg_finalize_run (vals : list (Nullable float)) :
  (Avg.finalize (foldl Avg.update Avg.initialize vals)).1 =
  match non_null vals with
  | [] => None
  | x :: xs =>
      Some (js_div (foldl js_add x xs) (Number_of_count (length (x :: xs))))
  end.
Proof.
  rewrite Avg_run. unfold Avg.finalize. simpl. rewrite Sum_run.
  by destruct (non_null vals) as [|x xs].
Qed.

(** C4, as the code computes it: AVG finalizes to [null] when no non-null
    value was seen; otherwise to the running sum of the non-null values,
    added in update order from the first one with the addition of numbers,
    divided, with the division of numbers, by their count, which is at least
    one.  Over [2, null, 4] the result is [3]. *)
Theorem Avg_finalize_mean (vals : list (Nullable float)) :
  (Avg.finalize (foldl Avg.update Avg.initialize vals)).1 =
    match non_null vals with
    | [] => None
    | x :: xs =>
        Some (js_div (foldl js_add x xs) (Number_of_count (length (x :: xs))))
    end
  ∧ (Avg.finalize
       (foldl Avg.update Avg.initialize
              [Some 2%float; None; Some 4%float])).1
    = Some 3%float.
Proof.
  split; [apply Avg_finalize_run|vm_compute; reflexivity].
Qed.

(** C4 as stated does not hold: over [1, 1, 2] the inputs have the values
    1, 1 and 2, the count is three and AVG finalizes to the number
    [0x1.5555555555555p+0], whose value is 6004799503160661 / 2^52 and not
    the quotient (1 + 1 + 2) / 3. *)
Lemma Avg_finalize_mean_counterexample :
  has_value 1%float 1 ∧ has_value 2%float 2
  ∧ length (non_null [Some 1%float; Some 1%float; Some 2%float]) = 3
  ∧ ∃ r : float,
      (Avg.finalize
         (foldl Avg.update Avg.initialize
                [Some 1%float; Some 1%float; Some 2%float])).1 = Some r
      ∧ has_value r (6004799503160661 # 4503599627370496)
      ∧ ¬ has_value r ((1 + 1 + 2) / 3).
Proof.
  split; [vm_compute; reflexivity|].
  split; [vm_compute; reflexivity|].
  split; [reflexivity|].
  exists 0x1.5555555555555p+0%float.
  split; [vm_compute; reflexivity|].
  split; [vm_compute; reflexivity|].
  vm_compute. discriminate.
Qed.

(** ** The order of numbers

    [a < b] is the comparison of the values of the two numbers; it is false
    when either of them is [NaN]. *)

Lemma SFcompare_not_nan x y :
  x ≠ S754_nan → y ≠ S754_nan → ∃ c, SFcompare x y = Some c.
Proof. destruct x, y; simpl; intros; try congruence; eauto. Qed.

Lemma SFcompare_Lt_trans x y z :
  SFcompare x y = Some Lt → SFcompare y z = Some Lt → SFcompare x z = Some Lt.
Proof.
  destruct x as [sx|sx| |sx mx ex], y as [sy|sy| |sy my ey],
    z as [sz|sz| |sz mz ez]; simpl;
    try destruct sx; try destruct sy; try destruct sz;
    try discriminate; try reflexivity;
    intros H1 H2; cmp_cases; simpl in *;
    try discriminate; try reflexivity; try lia.
Qed.

Lemma SFcompare_not_Lt_trans x y z c1 c2 :
  SFcompare x y = Some c1 → c1 ≠ Lt →
  SFcompare y z = Some c2 → c2 ≠ Lt →
  SFcompare x z ≠ Some Lt.
Proof.
  destruct x as [sx|sx| |sx mx ex], y as [sy|sy| |sy my ey],
    z as [sz|sz| |sz mz ez]; simpl;
    try destruct sx; try destruct sy; try destruct sz;
    intros H1 N1 H2 N2; try discriminate;
    injection H1 as <-; injection H2 as <-;
    try congruence;
    cmp_cases; simpl in *; try congruence; try lia.
Qed.

Lemma SFcompare_opp x y c :
  SFcompare x y = Some c → SFcompare y x = Some (CompOpp c).
Proof.
  destruct x as [sx|sx| |sx mx ex], y as [sy|sy| |sy my ey]; simpl;
    try destruct sx; try destruct sy;
    intros H; try discriminate; injection H as <-; try reflexivity;
    cmp_cases; simpl in *; try reflexivity; try lia.
Qed.

Lemma is_nan_Prim2SF (x : float) :
  PrimFloat.is_nan x = false → Prim2SF x ≠ S754_nan.
Proof.
  unfold PrimFloat.is_nan. rewrite FloatAxioms.eqb_spec. intros H Hnan.
  rewrite Hnan in H. done.
Qed.

Lemma js_lt_trans (a b c : float) :
  js_lt a b = true → js_lt b c = true → js_lt a c = true.
Proof.
  unfold js_lt. rewrite !ltb_spec. unfold SFltb.
  destruct (SFcompare (Prim2SF a) (Prim2SF b)) as [[]|] eqn:Hab; try done.
  destruct (SFcompare (Prim2SF b) (Prim2SF c)) as [[]|] eqn:Hbc; try done.
  by rewrite (SFcompare_Lt_trans _ _ _ Hab Hbc).
Qed.

Lemma js_lt_not_trans (a b c : float) :
  PrimFloat.is_nan a = false → PrimFloat.is_nan b = false →
  PrimFloat.is_nan c = false →
  js_lt a b = false → js_lt b c = false → js_lt a c = false.
Proof.
  intros Ha Hb Hc. apply is_nan_Prim2SF in Ha, Hb, Hc.
  unfold js_lt. rewrite !ltb_spec. unfold SFltb.
  destruct (SFcompare_not_nan _ _ Ha Hb) as [c1 Hab].
  destruct (SFcompare_not_nan _ _ Hb Hc) as [c2 Hbc].
  rewrite Hab, Hbc. intros H1 H2.
  assert (c1 ≠ Lt) as N1 by (by destruct c1).
  assert (c2 ≠ Lt) as N2 by (by destruct c2).
  pose proof (SFcompare_not_Lt_trans _ _ _ c1 c2 Hab N1 Hbc N2) as Hn.
  by destruct (SFcompare (Prim2SF a) (Prim2SF c)) as [[]|].
Qed.

Lemma js_lt_asym (a b : float) : js_lt a b = true → js_lt b a = false.
Proof.
  unfold js_lt. rewrite !ltb_spec. unfold SFltb.
  destruct (SFcompare (Prim2SF a) (Prim2SF b)) as [[]|] eqn:Hab; try done.
  by rewrite (SFcompare_opp _ _ _ Hab).
Qed.

Lemma js_lt_irrefl (a : float) : js_lt a a = false.
Proof.
  destruct (js_lt a a) eqn:H; [|done]. by rewrite (js_lt_asym _ _ H) in H.
Qed.

Lemma leb_js_lt (a b : float) :
  PrimFloat.is_nan a = false → PrimFloat.is_nan b = false →
  PrimFloat.leb a b = true ↔ js_lt b a = false.
Proof.
  intros Ha Hb. apply is_nan_Prim2SF in Ha, Hb.
  unfold js_lt. rewrite leb_spec, ltb_spec. unfold SFleb, SFltb.
  destruct (SFcompare_not_nan _ _ Ha Hb) as [c Hab].
  rewrite Hab, (SFcompare_opp _ _ _ Hab). by destruct c.
Qed.

Lemma eqb_js_lt (a b : float) :
  PrimFloat.is_nan a = false → PrimFloat.is_nan b = false →
  js_lt a b = false → js_lt b a = false → PrimFloat.eqb a b = true.
Proof.
  intros Ha Hb. apply is_nan_Prim2SF in Ha, Hb.
  unfold js_lt. rewrite FloatAxioms.eqb_spec, !ltb_spec. unfold SFeqb, SFltb.
  destruct (SFcompare_not_nan _ _ Ha Hb) as [c Hab].
  rewrite Hab, (SFcompare_opp _ _ _ Hab). by destruct c.
Qed.

Lemma leb_refl (a : float) :
  PrimFloat.is_nan a = false → PrimFloat.leb a a = true.
Proof. intros Ha. apply leb_js_lt; [done..|]. apply js_lt_irrefl. Qed.

Lemma leb_trans (a b c : float) :
  PrimFloat.is_nan a = false → PrimFloat.is_nan b = false →
  PrimFloat.is_nan c = false →
  PrimFloat.leb a b = true → PrimFloat.leb b c = true →
  PrimFloat.leb a c = true.
Proof.
  intros Ha Hb Hc Hab Hbc.
  apply leb_js_lt in Hab, Hbc; try done.
  apply leb_js_lt; [done..|]. by apply (js_lt_not_trans c b a).
Qed.

Lemma leb_antisym (a b : float) :
  PrimFloat.is_nan a = false → PrimFloat.is_nan b = false →
  PrimFloat.leb a b = true → PrimFloat.leb b a = true →
  PrimFloat.eqb a b = true.
Proof.
  intros Ha Hb Hab Hba. apply leb_js_lt in Hab, Hba; try done.
  by apply eqb_js_lt.
Qed.

(** ** MIN, MAX, FIRST and LAST *)

Lemma Min_selector_le (a b : float) :
  PrimFloat.is_nan a = false → PrimFloat.is_nan b = false →
  (Min.selector a b = a ∨ Min.selector a b = b)
  ∧ PrimFloat.leb (Min.selector a b) a = true
  ∧ PrimFloat.leb (Min.selector a b) b = true.
Proof.
  intros Ha Hb. unfold Min.selector. destruct (js_lt a b) eqn:Hlt.
  - split; [by left|]. split; [by apply leb_refl|].
    apply leb_js_lt; [done..|]. by apply js_lt_asym.
  - split; [by right|]. split; [by apply leb_js_lt|by apply leb_refl].
Qed.

Lemma Max_selector_ge (a b : float) :
  PrimFloat.is_nan a = false → PrimFloat.is_nan b = false →
  (Max.selector a b = a ∨ Max.selector a b = b)
  ∧ PrimFloat.leb a (Max.selector a b) = true
  ∧ PrimFloat.leb b (Max.selector a b) = true.
Proof.
  intros Ha Hb. unfold Max.selector, js_gt.
  change (PrimFloat.ltb b a) with (js_lt b a). destruct (js_lt b a) eqn:Hlt.
  - split; [by left|]. split; [by apply leb_refl|].
    apply leb_js_lt; [done..|]. by apply js_lt_asym.
  - split; [by right|]. split; [by apply leb_js_lt|by apply leb_refl].
Qed.

Lemma foldl_Min_selector (xs : list float) (x : float) :
  Forall (fun y => PrimFloat.is_nan y = false) (x :: xs) →
  foldl Min.selector x xs ∈ x :: xs
  ∧ ∀ y, y ∈ x :: xs → PrimFloat.leb (foldl Min.selector x xs) y = true.
Proof.
  revert x. induction xs as [|z xs IH]; intros x Hnan; simpl.
  - apply Forall_cons_1 in Hnan as [Hx _].
    split; [left|]. intros y Hy. apply list_elem_of_singleton in Hy as ->.
    by apply leb_refl.
  - apply Forall_cons_1 in Hnan as [Hx Hnan].
    pose proof Hnan as Hzxs. apply Forall_cons_1 in Hnan as [Hz Hxs].
    destruct (Min_selector_le x z Hx Hz) as (Hsel & Hlex & Hlez).
    assert (Hs : PrimFloat.is_nan (Min.selector x z) = false)
      by (by destruct Hsel as [->| ->]).
    destruct (IH (Min.selector x z)) as [Hin Hle].
    { by apply Forall_cons_2. }
    assert (Hall : Forall (fun y => PrimFloat.is_nan y = false)
                          (Min.selector x z :: xs)) by (by apply Forall_cons_2).
    assert (Hf : PrimFloat.is_nan (foldl Min.selector (Min.selector x z) xs)
                 = false).
    { by apply (proj1 (Forall_forall _ _) Hall). }
    split.
    + apply elem_of_cons in Hin as [Hin|Hin].
      * rewrite Hin. destruct Hsel as [->| ->]; [left|right; left].
      * right. by right.
    + intros y Hy.
      assert (Hm : PrimFloat.leb (foldl Min.selector (Min.selector x z) xs)
                                 (Min.selector x z) = true)
        by (apply Hle; left).
      apply elem_of_cons in Hy as [->|Hy];
        [by apply (leb_trans _ (Min.selector x z))|].
      apply elem_of_cons in Hy as [->|Hy];
        [by apply (leb_trans _ (Min.selector x z))|].
      apply Hle. by right.
Qed.

Lemma foldl_Max_selector (xs : list float) (x : float) :
  Forall (fun y => PrimFloat.is_nan y = false) (x :: xs) →
  foldl Max.selector x xs ∈ x :: xs
  ∧ ∀ y, y ∈ x :: xs → PrimFloat.leb y (foldl Max.selector x xs) = true.
Proof.
  revert x. induction xs as [|z xs IH]; intros x Hnan; simpl.
  - apply Forall_cons_1 in Hnan as [Hx _].
    split; [left|]. intros y Hy. apply list_elem_of_singleton in Hy as ->.
    by apply leb_refl.
  - apply Forall_cons_1 in Hnan as [Hx Hnan].
    pose proof Hnan as Hzxs. apply Forall_cons_1 in Hnan as [Hz Hxs].
    destruct (Max_selector_ge x z Hx Hz) as (Hsel & Hlex & Hlez).
    assert (Hs : PrimFloat.is_nan (Max.selector x z) = false)
      by (by destruct Hsel as [->| ->]).
    destruct (IH (Max.selector x z)) as [Hin Hle].
    { by apply Forall_cons_2. }
    assert (Hall : Forall (fun y => PrimFloat.is_nan y = false)
                          (Max.selector x z :: xs)) by (by apply Forall_cons_2).
    assert (Hf : PrimFloat.is_nan (foldl Max.selector (Max.selector x z) xs)
                 = false).
    { by apply (proj1 (Forall_forall _ _) Hall). }
    split.
    + apply elem_of_cons in Hin as [Hin|Hin].
      * rewrite Hin. destruct Hsel as [->| ->]; [left|right; left].
      * right. by right.
    + intros y Hy.
      assert (Hm : PrimFloat.leb (Max.selector x z)
                     (foldl Max.selector (Max.selector x z) xs) = true)
        by (apply Hle; left).
      apply elem_of_cons in Hy as [->|Hy];
        [by apply (leb_trans _ (Max.selector x z))|].
      apply elem_of_cons in Hy as [->|Hy];
        [by apply (leb_trans _ (Max.selector x z))|].
      apply Hle. by right.
Qed.

Lemma foldl_First_selector {T} (xs : list T) (x : T) :
  foldl First.selector x xs = x.
Proof. induction xs as [|y xs IH]; simpl; done. Qed.

Lemma foldl_Last_selector {T} (xs : list T) (x : T) :
  Some (foldl Last.selector x xs) = last (x :: xs).
Proof.
  revert x. induction xs as [|y xs IH]; intros x; [done|].
  simpl foldl. unfold Last.selector at 2. rewrite IH. by rewrite last_cons_cons.
Qed.

(** MIN and MAX over values none of which is [NaN]. *)
Lemma Min_finalize_smallest (vals : list (Nullable float)) :
  Forall (fun x => PrimFloat.is_nan x = false) (non_null vals) →
  smallest_of (non_null vals)
              (Min.finalize (foldl Min.update Min.initialize vals)).1.
Proof.
  intros Hnan.
  unfold Min.finalize, Min.update, Min.initialize, ValueAggr.finalize.
  simpl. rewrite ValueAggr_run.
  destruct (non_null vals) as [|x xs]; simpl; [done|].
  by apply foldl_Min_selector.
Qed.

Lemma Max_finalize_largest (vals : list (Nullable float)) :
  Forall (fun x => PrimFloat.is_nan x = false) (non_null vals) →
  largest_of (non_null vals)
             (Max.finalize (foldl Max.update Max.initialize vals)).1.
Proof.
  intros Hnan.
  unfold Max.finalize, Max.update, Max.initialize, ValueAggr.finalize.
  simpl. rewrite ValueAggr_run.
  destruct (non_null vals) as [|x xs]; simpl; [done|].
  by apply foldl_Max_selector.
Qed.

(** C6, for values none of which is [NaN]: MIN finalizes to the smallest
    and MAX to the largest non-null value of the update sequence; FIRST
    finalizes to the first and LAST to the last non-null value in update
    order, whatever the values are; each finalizes to [null] when there is
    no non-null value.  Over [5, null, 2, 8] MIN gives [2] and MAX gives
    [8]. *)
Theorem ValueAggr_finalize_selects {T} (vals : list (Nullable float))
    (tvals : list (Nullable T)) :
  Forall (fun x => PrimFloat.is_nan x = false) (non_null vals) →
  smallest_of (non_null vals)
              (Min.finalize (foldl Min.update Min.initialize vals)).1
  ∧ largest_of (non_null vals)
               (Max.finalize (foldl Max.update Max.initialize vals)).1
  ∧ (First.finalize (foldl First.update First.initialize tvals)).1
    = head (non_null tvals)
  ∧ (Last.finalize (foldl Last.update Last.initialize tvals)).1
    = last (non_null tvals)
  ∧ (Min.finalize
       (foldl Min.update Min.initialize
              [Some 5%float; None; Some 2%float; Some 8%float])).1
    = Some 2%float
  ∧ (Max.finalize
       (foldl Max.update Max.initialize
              [Some 5%float; None; Some 2%float; Some 8%float])).1
    = Some 8%float.
Proof.
  intros Hnan.
  split; [by apply Min_finalize_smallest|].
  split; [by apply Max_finalize_largest|].
  unfold First.finalize, Last.finalize, First.update, Last.update,
    First.initialize, Last.initialize, ValueAggr.finalize.
  simpl. rewrite !ValueAggr_run.
  split; [|split; [|split]].
  - destruct (non_null tvals) as [|x xs]; simpl; [done|].
    by rewrite foldl_First_selector.
  - destruct (non_null tvals) as [|x xs]; [done|].
    unfold selected. apply foldl_Last_selector.
  - vm_compute. reflexivity.
  - vm_compute. reflexivity.
Qed.

Lemma ValueAggr_finalize_selects_witness :
  Forall (fun x => PrimFloat.is_nan x = false)
         (non_null [Some 5%float; None; Some 2%float; Some 8%float])
  ∧ smallest_of (non_null [Some 5%float; None; Some 2%float; Some 8%float])
      (Min.finalize
         (foldl Min.update Min.initialize
                [Some 5%float; None; Some 2%float; Some 8%float])).1.
Proof.
  assert (Hnan : Forall (fun x => PrimFloat.is_nan x = false)
                   (non_null [Some 5%float; None; Some 2%float; Some 8%float])).
  { repeat apply List.Forall_cons; try apply List.Forall_nil;
      vm_compute; reflexivity. }
  split; [exact Hnan|].
  exact (proj1 (ValueAggr_finalize_selects (T := unit)
                  [Some 5%float; None; Some 2%float; Some 8%float] [] Hnan)).
Defined.

(** C6 as stated does not hold when [NaN] is among the values: every
    comparison with [NaN] is false, so that the selector replaces the
    current value by the next one.  Over [5, NaN, 7] MIN finalizes to [7]
    although [5 < 7], and over [5, NaN, 2] MAX finalizes to [2] although
    [2 < 5]. *)
Lemma ValueAggr_finalize_selects_counterexample :
  (Min.finalize
     (foldl Min.update Min.initialize
            [Some 5%float; Some PrimFloat.nan; Some 7%float])).1 = Some 7%float
  ∧ js_lt 5 7 = true
  ∧ ¬ smallest_of (non_null [Some 5%float; Some PrimFloat.nan; Some 7%float])
        (Min.finalize
           (foldl Min.update Min.initialize
                  [Some 5%float; Some PrimFloat.nan; Some 7%float])).1
  ∧ (Max.finalize
       (foldl Max.update Max.initialize
              [Some 5%float; Some PrimFloat.nan; Some 2%float])).1
    = Some 2%float
  ∧ js_lt 2 5 = true
  ∧ ¬ largest_of (non_null [Some 5%float; Some PrimFloat.nan; Some 2%float])
        (Max.finalize
           (foldl Max.update Max.initialize
                  [Some 5%float; Some PrimFloat.nan; Some 2%float])).1.
Proof.
  split; [vm_compute; reflexivity|].
  split; [vm_compute; reflexivity|].
  split.
  { intros [_ Hle]. specialize (Hle 5%float).
    assert (Hin : 5%float ∈ non_null
                    [Some 5%float; Some PrimFloat.nan; Some 7%float])
      by (simpl; left).
    specialize (Hle Hin). vm_compute in Hle. discriminate. }
  split; [vm_compute; reflexivity|].
  split; [vm_compute; reflexivity|].
  intros [_ Hle]. specialize (Hle 5%float).
  assert (Hin : 5%float ∈ non_null
                  [Some 5%float; Some PrimFloat.nan; Some 2%float])
    by (simpl; left).
  specialize (Hle Hin). vm_compute in Hle. discriminate.
Qed.

Lemma ArrayAgg_run {T} (vals : list (Nullable T)) :
  ArrayAgg.value (foldl ArrayAgg.update ArrayAgg.initialize vals) =
  match vals with [] => None | _ :: _ => Some vals end.
Proof.
  induction vals as [|val vals IH] using rev_ind; [done|].
  rewrite foldl_snoc.
  set (state := foldl ArrayAgg.update ArrayAgg.initialize vals) in *.
  unfold ArrayAgg.update. rewrite IH. simpl.
  destruct vals as [|v vals]; done.
Qed.

(** C7: ARRAY_AGG finalizes to the list of all updated values in update
    order, [null]s included, and to [null] when [update] was never called;
    over [1, null, 2] the result is the three-element list [1, null, 2]. *)
Theorem ArrayAgg_finalize_collects {T} (vals : list (Nullable T)) :
  (ArrayAgg.finalize (foldl ArrayAgg.update ArrayAgg.initialize vals)).1 =
    match vals with [] => None | _ :: _ => Some vals end
  ∧ (ArrayAgg.finalize
       (foldl ArrayAgg.update ArrayAgg.initialize
              [Some 1%float; None; Some 2%float])).1
    = Some [Some 1%float; None; Some 2%float]
  ∧ (ArrayAgg.finalize (ArrayAgg.initialize (T := T))).1 = None.
Proof.
  split; [apply ArrayAgg_run|]. split; reflexivity.
Qed.

(** ** STRING_AGG *)

Section StringAggFacts.
Context (ToString_other : Value → string).

Lemma append_assoc (a b c : string) : (a +:+ b) +:+ c = a +:+ (b +:+ c).
Proof.
  induction a as [|ch a IH]; [done|].
  change (String ch ((a +:+ b) +:+ c) = String ch (a +:+ (b +:+ c))).
  by rewrite IH.
Qed.

(** Folding [a + sep + b] from the first string is the join of the list. *)
Lemma foldl_join (sep : string) (xs : list string) (x : string) :
  foldl (fun a b => (a +:+ sep) +:+ b) x xs = String.concat sep (x :: xs).
Proof.
  revert x. induction xs as [|y xs IH]; intros x; [done|].
  simpl foldl. rewrite IH.
  change (String.concat sep (x :: y :: xs))
    with (x +:+ sep +:+ String.concat sep (y :: xs)).
  destruct xs as [|z xs].
  - simpl. apply append_assoc.
  - change (String.concat sep (((x +:+ sep) +:+ y) :: z :: xs))
      with (((x +:+ sep) +:+ y) +:+ sep +:+ String.concat sep (z :: xs)).
    change (String.concat sep (y :: z :: xs))
      with (y +:+ sep +:+ String.concat sep (z :: xs)).
    by rewrite !append_assoc.
Qed.

(** The separator chosen by the constructor. *)
Lemma sep_default (value : Expr) : StringAgg.sep [value] = VStr ",".
Proof. reflexivity. Qed.

Lemma sep_nonempty (value : Expr) (s : string) :
  s ≠ "" → StringAgg.sep [value; ConstExpr (VStr s)] = VStr s.
Proof. intros Hs. destruct s; done. Qed.

Lemma sep_empty (value : Expr) :
  StringAgg.sep [value; ConstExpr (VStr "")] = VStr ",".
Proof. reflexivity. Qed.

(** With the separator the constructor chose, the aggregate joins the
    non-null values in update order. *)
Lemma StringAgg_run (args : list Expr) (vals : list (Nullable string)) :
  (StringAgg.finalize
     (foldl (StringAgg.update ToString_other args) StringAgg.initialize vals)).1
  = match non_null vals with
    | [] => None
    | xs => Some (String.concat (StringAgg.ToString ToString_other
                                   (StringAgg.sep args)) xs)
    end.
Proof.
  unfold StringAgg.finalize, StringAgg.update, StringAgg.initialize,
    ValueAggr.finalize.
  simpl. rewrite ValueAggr_run.
  destruct (non_null vals) as [|x xs]; [done|].
  unfold selected, StringAgg.selector. by rewrite foldl_join.
Qed.

(** For a non-empty separator, and for the default, the claim of C3 holds. *)
Lemma StringAgg_joins_nonempty (value : Expr) (s : string)
    (vals : list (Nullable string)) :
  s ≠ "" →
  (StringAgg.finalize
     (foldl (StringAgg.update ToString_other [value; ConstExpr (VStr s)])
            StringAgg.initialize vals)).1
  = match non_null vals with
    | [] => None
    | xs => Some (String.concat s xs)
    end.
Proof. intros Hs. rewrite StringAgg_run, sep_nonempty; done. Qed.

Lemma StringAgg_joins_default (value : Expr) (vals : list (Nullable string)) :
  (StringAgg.finalize
     (foldl (StringAgg.update ToString_other [value])
            StringAgg.initialize vals)).1
  = match non_null vals with
    | [] => None
    | xs => Some (String.concat "," xs)
    end.
Proof. by rewrite StringAgg_run, sep_default. Qed.
End StringAggFacts.

(** C3 at the empty separator: a second constructor argument whose constant
    is the empty string is replaced by the default [","], so that
    [["a", "b"]] finalizes to ["a,b"], while joining by the empty string
    gives ["ab"].  The examples of the claim, with the default separator and
    with ["-"], hold. *)
Theorem StringAgg_empty_separator (ToString_other : Value → string) :
  StringAgg.sep [RefExpr "x"; ConstExpr (VStr "")] = VStr ","
  ∧ (StringAgg.finalize
       (foldl (StringAgg.update ToString_other [RefExpr "x"; ConstExpr (VStr "")])
              StringAgg.initialize [Some "a"; Some "b"])).1 = Some "a,b"
  ∧ String.concat "" ["a"; "b"] = "ab"
  ∧ (StringAgg.finalize
       (foldl (StringAgg.update ToString_other [RefExpr "x"])
              StringAgg.initialize [Some "a"; Some "b"; Some "c"])).1
    = Some "a,b,c"
  ∧ (StringAgg.finalize
       (foldl (StringAgg.update ToString_other [RefExpr "x"; ConstExpr (VStr "-")])
              StringAgg.initialize [Some "a"; None; Some "b"; Some "c"])).1
    = Some "a-b-c".
Proof. repeat split; reflexivity. Qed.

(** ** Finalizing does not change the state *)

Lemma Avg_finalize_state (state : Avg.State) :
  (Avg.finalize state).2 = state.
Proof.
  destruct state as [super count]. unfold Avg.finalize. simpl.
  destruct (count =? 0); reflexivity.
Qed.

(** C9: for each of the ten aggregates and each state reached from
    [initialize] by a sequence of updates, [finalize] returns the state it
    was given, so that a second [finalize] returns the same result. *)
Theorem finalize_leaves_state (T : Type) (ToString_other : Value → string)
    (args : list Expr) :
  Forall (fun A : AggrClass =>
            ∀ vals : list (Val A),
              (finalize A (run A vals)).2 = run A vals
              ∧ (finalize A (finalize A (run A vals)).2).1
                = (finalize A (run A vals)).1)
         (library T ToString_other args).
Proof.
  assert (Hpure : ∀ A : AggrClass,
             (∀ state, (finalize A state).2 = state) →
             ∀ vals : list (Val A),
               (finalize A (run A vals)).2 = run A vals
               ∧ (finalize A (finalize A (run A vals)).2).1
                 = (finalize A (run A vals)).1).
  { intros A HA vals. split; [apply HA|]. by rewrite HA. }
  unfold library.
  repeat apply List.Forall_cons; try apply List.Forall_nil; apply Hpure; simpl;
    try (intros state; reflexivity).
  apply Avg_finalize_state.
Qed.

(** * Further properties of the expression evaluator *)

(** ** Array writes at any index *)

Lemma js_set_length (a : list Value) i v :
  length (js_set a i v) = length a `max` S i.
Proof.
  destruct (decide (i < length a)) as [Hlt|Hge].
  - rewrite js_set_length_lt by done. lia.
  - rewrite js_set_length_ge by lia. lia.
Qed.

Lemma js_set_lookup_same (a : list Value) i v : js_set a i v !! i = Some v.
Proof.
  destruct (decide (i < length a)) as [Hlt|Hge].
  - by apply js_set_lookup_eq.
  - unfold js_set. rewrite decide_False by done.
    rewrite lookup_app_r by lia.
    rewrite lookup_app_r by (rewrite length_replicate; lia).
    rewrite length_replicate. by rewrite Nat.sub_diag.
Qed.

Lemma js_get_set_ne (a : list Value) i j v :
  i ≠ j → js_get (js_set a i v) j = js_get a j.
Proof.
  intros Hne. unfold js_get.
  destruct (decide (i < length a)) as [Hlt|Hge].
  - by rewrite js_set_lookup_ne.
  - unfold js_set. rewrite decide_False by done.
    destruct (decide (j < length a)) as [Hj|Hj].
    + by rewrite lookup_app_l.
    + rewrite (lookup_ge_None_2 a j) by lia.
      rewrite lookup_app_r by lia.
      destruct (decide (j < i)) as [Hji|Hji].
      * rewrite lookup_app_l by (rewrite length_replicate; lia).
        rewrite lookup_replicate_2 by lia. done.
      * rewrite lookup_ge_None_2; [done|].
        rewrite length_app, length_replicate. simpl. lia.
Qed.

Lemma lookup_js_get (a : list Value) i :
  i < length a → a !! i = Some (js_get a i).
Proof.
  intros Hlt. apply lookup_lt_is_Some in Hlt as [v Hv].
  unfold js_get. by rewrite Hv.
Qed.

Lemma extent_bound (selection : Selection) m :
  extent selection ≤ m ↔ ∀ i, i ∈ selection → i < m.
Proof.
  induction selection as [|s selection IH]; simpl.
  - split; [|lia]. intros _ i Hi. by apply elem_of_nil in Hi.
  - split.
    + intros Hle i Hi. apply elem_of_cons in Hi as [->|Hi]; [lia|].
      apply IH; [lia|done].
    + intros Hall. apply Nat.max_lub.
      * apply Hall. left.
      * apply IH. intros i Hi. apply Hall. by right.
Qed.

Lemma extent_same_elements (S1 S2 : Selection) :
  (∀ i, i ∈ S1 ↔ i ∈ S2) → extent S1 = extent S2.
Proof.
  intros Hsame. apply Nat.le_antisymm; apply extent_bound; intros i Hi.
  - apply Hsame in Hi. by apply (proj1 (extent_bound S2 (extent S2))).
  - apply Hsame in Hi. by apply (proj1 (extent_bound S1 (extent S1))).
Qed.

Section WriteRowsAny.
Context (g : nat → Value).

Lemma write_rows_any_length (selection : Selection) (out : list Value) :
  length (foldl (write_row g) out selection) = length out `max` extent selection.
Proof.
  revert out. induction selection as [|s selection IH]; intros out; simpl.
  - lia.
  - rewrite IH. unfold write_row. rewrite js_set_length. lia.
Qed.

Lemma write_rows_any_unselected (selection : Selection) (out : list Value) i :
  i ∉ selection →
  js_get (foldl (write_row g) out selection) i = js_get out i.
Proof.
  revert out. induction selection as [|s selection IH]; intros out Hi; simpl.
  - done.
  - apply not_elem_of_cons in Hi as [Hne Hi].
    rewrite IH by done. unfold write_row. by apply js_get_set_ne.
Qed.

Lemma write_rows_any_selected (selection : Selection) (out : list Value) i :
  i ∈ selection →
  foldl (write_row g) out selection !! i = Some (g i).
Proof.
  revert out. induction selection as [|s selection IH]; intros out Hin.
  - by apply elem_of_nil in Hin.
  - simpl. destruct (decide (i ∈ selection)) as [Hi|Hi]; [by apply IH|].
    apply elem_of_cons in Hin as [->|Hin]; [|done].
    rewrite lookup_js_get.
    + rewrite write_rows_any_unselected by done.
      unfold write_row, js_get. by rewrite js_set_lookup_same.
    + rewrite write_rows_any_length. unfold write_row.
      rewrite js_set_length. lia.
Qed.

Lemma write_rows_same_elements (S1 S2 : Selection) (out : list Value) :
  (∀ i, i ∈ S1 ↔ i ∈ S2) →
  foldl (write_row g) out S1 = foldl (write_row g) out S2.
Proof.
  intros Hsame. apply list_eq. intros i.
  destruct (decide (i ∈ S1)) as [Hi|Hi].
  - rewrite !write_rows_any_selected; [done| |done]. by apply Hsame.
  - assert (Hi' : i ∉ S2) by (by rewrite <- Hsame).
    destruct (decide (i < length out `max` extent S1)) as [Hlt|Hge].
    + rewrite !lookup_js_get.
      * by rewrite !write_rows_any_unselected.
      * rewrite write_rows_any_length.
        by rewrite <- (extent_same_elements S1 S2).
      * by rewrite write_rows_any_length.
    + rewrite !lookup_ge_None_2; [done| |].
      * rewrite write_rows_any_length.
        rewrite <- (extent_same_elements S1 S2) by done. lia.
      * rewrite write_rows_any_length. lia.
Qed.
End WriteRowsAny.

Lemma write_rows_ext (g1 g2 : nat → Value) (selection : Selection)
    (out : list Value) :
  (∀ i, i ∈ selection → g1 i = g2 i) →
  foldl (write_row g1) out selection = foldl (write_row g2) out selection.
Proof.
  revert out. induction selection as [|s selection IH]; intros out Hext.
  - done.
  - simpl. unfold write_row at 2 4. rewrite (Hext s) by left.
    apply IH. intros i Hi. apply Hext. by right.
Qed.



(** ** Selections with the same indices *)

Lemma mapM_ext_Forall {A B} (f g : A → result B) (l : list A) :
  Forall (fun a => f a = g a) l → mapM f l = mapM g l.
Proof.
  induction 1 as [|a l Ha _ IH]; simpl; [done|]. by rewrite Ha, IH.
Qed.

(** An argument that is not a Column makes the first selected row throw;
    selections with the same indices are both empty or both not. *)
Lemma reduce_result_same_elements (func : list Value → Value)
    (inputs : list Object) (S1 S2 : Selection) (out : list Value) :
  (∀ i, i ∈ S1 ↔ i ∈ S2) →
  reduce_result (apply_row_objects func inputs) S1 out
  = reduce_result (apply_row_objects func inputs) S2 out.
Proof.
  intros Hsame. destruct (columns_of inputs) as [columns|] eqn:Hcols.
  - apply columns_of_Some in Hcols as ->. rewrite !reduce_result_columns.
    f_equal.
    change (apply_row func columns) with (write_row (row_value func columns)).
    by apply write_rows_same_elements.
  - rewrite !reduce_result_inherited by done.
    destruct S1 as [|s1 S1], S2 as [|s2 S2]; try done.
    + exfalso. apply (elem_of_nil s2). apply Hsame. left.
    + exfalso. apply (elem_of_nil s1). apply Hsame. left.
Qed.

(** X2: the result of an evaluation depends on the selection only through
    the set of its indices: reordering the selection or repeating an index
    changes nothing (the column returned, the [ReferenceError] thrown, or
    the fact that a [TypeError] is thrown). *)
Theorem evaluate_selection_elements (e : Expr) (namespace : Namespace)
    (S1 S2 : Selection) :
  (∀ i, i ∈ S1 ↔ i ∈ S2) →
  evaluate e namespace S1 = evaluate e namespace S2.
Proof.
  intros Hsame.
  induction e as [func args IH|reference|constant] using Expr_nested_ind;
    [|done..].
  simpl. rewrite (mapM_ext_Forall _ _ _ IH).
  destruct (mapM _ args) as [inputs|err]; simpl; [|done].
  by rewrite (reduce_result_same_elements func inputs S1 S2).
Qed.

Lemma evaluate_selection_elements_witness :
  (∀ i, i ∈ [2; 0; 2] ↔ i ∈ [0; 2])
  ∧ evaluate (FuncExpr sample_func sample_args) sample_namespace [2; 0; 2]
    = evaluate (FuncExpr sample_func sample_args) sample_namespace [0; 2].
Proof.
  assert (Hsame : ∀ i, i ∈ [2; 0; 2] ↔ i ∈ [0; 2]).
  { intros i. rewrite !elem_of_cons, !elem_of_nil. tauto. }
  split; [exact Hsame|].
  exact (evaluate_selection_elements (FuncExpr sample_func sample_args)
           sample_namespace [2; 0; 2] [0; 2] Hsame).
Defined.

(** ** Nested function nodes *)

(** X3: a function node applied to a single function node evaluates to the
    same result, column or error, as one function node that applies the
    composition of the two functions to the inner arguments, for every
    namespace and selection. *)
Theorem FuncExpr_evaluate_fusion (namespace : Namespace) (selection : Selection)
    (f g : list Value → Value) (args : list Expr) :
  evaluate (FuncExpr f [FuncExpr g args]) namespace selection
  = evaluate (FuncExpr (fun values => f [g values]) args) namespace selection.
Proof.
  simpl. destruct (mapM _ args) as [inputs|err]; simpl; [|done].
  destruct (columns_of inputs) as [columns|] eqn:Hcols.
  - apply columns_of_Some in Hcols as ->. rewrite !reduce_result_columns.
    simpl.
    change [ColumnObj ?c] with (ColumnObj <$> [c]).
    rewrite reduce_result_columns. simpl.
    do 3 f_equal.
    change (apply_row f ?cols) with (write_row (row_value f cols)).
    change (apply_row ?h columns) with (write_row (row_value h columns)).
    apply write_rows_ext. intros i Hi. unfold row_value. simpl.
    unfold js_get at 1. by rewrite write_rows_any_selected.
  - rewrite !reduce_result_inherited by done.
    destruct selection as [|selid selection]; done.
Qed.

(** ** Selecting every row *)

(** X4: with the selection [0, 1, ..., count - 1] a function node maps the
    function over the rows: row [i] of the result is the function applied
    to the values read at row [i] from the argument columns. *)
Theorem FuncExpr_evaluate_all_rows (namespace : Namespace)
    (func : list Value → Value) (args : list Expr) (inputs : list Column) :
  Forall2 (fun arg (column : Column) =>
             evaluate arg namespace (seq 0 (row_count namespace))
             = Ok (ColumnObj column))
          args inputs →
  evaluate (FuncExpr func args) namespace (seq 0 (row_count namespace))
  = Ok (ColumnObj
          (mkColumn None
             ((fun i => func (map (fun input => js_get (data input) i) inputs))
                <$> seq 0 (row_count namespace)))).
Proof.
  intros Hargs. rewrite (evaluate_FuncExpr_Ok _ _ _ _ _ Hargs).
  do 3 f_equal.
  change (apply_row func inputs) with (write_row (row_value func inputs)).
  apply list_eq. intros i. rewrite list_lookup_fmap.
  destruct (decide (i < row_count namespace)) as [Hlt|Hge].
  - rewrite write_rows_any_selected by (apply elem_of_seq; lia).
    by rewrite lookup_seq_lt.
  - rewrite lookup_seq_ge by lia. simpl. apply lookup_ge_None_2.
    rewrite write_rows_any_length. unfold Array_fill.
    rewrite length_replicate.
    assert (extent (seq 0 (row_count namespace)) ≤ row_count namespace).
    { apply extent_bound. intros j Hj. apply elem_of_seq in Hj. lia. }
    lia.
Qed.

Lemma FuncExpr_evaluate_all_rows_witness :
  Forall2 (fun arg (column : Column) =>
             evaluate arg sample_namespace (seq 0 (row_count sample_namespace))
             = Ok (ColumnObj column))
          sample_args sample_inputs
  ∧ evaluate (FuncExpr sample_func sample_args) sample_namespace
             (seq 0 (row_count sample_namespace))
    = Ok (ColumnObj
            (mkColumn None
               ((fun i => sample_func
                            (map (fun input => js_get (data input) i)
                                 sample_inputs))
                  <$> seq 0 (row_count sample_namespace)))).
Proof.
  assert (Hargs : Forall2 (fun arg (column : Column) =>
            evaluate arg sample_namespace (seq 0 (row_count sample_namespace))
            = Ok (ColumnObj column)) sample_args sample_inputs).
  { repeat constructor. }
  split; [exact Hargs|].
  exact (FuncExpr_evaluate_all_rows sample_namespace sample_func sample_args
           sample_inputs Hargs).
Defined.

(** ** Missing references *)




(** ** The row count of a growing namespace *)

(** X6: adding a column under a new name makes the effective row count the
    larger of the old count and the length of the new column. *)
Theorem row_count_insert (namespace : Namespace) (name : string)
    (column : Column) :
  namespace !! name = None →
  row_count (<[name := column]> namespace)
  = length (data column) `max` row_count namespace.
Proof.
  intros Hfresh.
  apply (max_column_length_unique (<[name := column]> namespace));
    [apply row_count_max|].
  destruct (row_count_max namespace) as [Hub Hwit].
  split.
  - intros x c Hx. apply lookup_insert_Some in Hx as [[_ <-]|[_ Hx]]; [lia|].
    specialize (Hub _ _ Hx). lia.
  - destruct (Nat.max_spec (length (data column)) (row_count namespace))
      as [[Hlt ->]|[Hle ->]].
    + destruct Hwit as [Hzero|(x & c & Hx & Hc)]; [lia|].
      right. exists x, c. split; [|done].
      rewrite lookup_insert_ne; [done|]. intros ->. congruence.
    + right. exists name, column. split; [|done]. apply lookup_insert_eq.
Qed.

Lemma row_count_insert_witness :
  sample_namespace !! "c" = None
  ∧ row_count (<["c" := mkColumn None [VNull; VNull; VNull; VNull]]>
                 sample_namespace)
    = length [VNull; VNull; VNull; VNull] `max` row_count sample_namespace.
Proof.
  assert (Hfresh : sample_namespace !! "c" = None) by (vm_compute; reflexivity).
  split; [exact Hfresh|].
  exact (row_count_insert sample_namespace "c"
           (mkColumn None [VNull; VNull; VNull; VNull]) Hfresh).
Defined.

(** ** The null wrapper under a function node *)

(** X7: a function node whose function is wrapped by [nullWrapper_] yields,
    at a selected row, [null] when one of the values read for that row is
    [null], and the wrapped function's result on these values otherwise;
    the wrapper does not treat [undefined] as [null]. *)
Theorem nullWrapper_evaluate_row (namespace : Namespace) (selection : Selection)
    (f : list Value → Value) (args : list Expr) (inputs : list Column)
    (i : nat) :
  Forall2 (fun arg (column : Column) =>
             evaluate arg namespace selection = Ok (ColumnObj column))
          args inputs →
  i ∈ selection →
  ∃ column : Column,
    evaluate (FuncExpr (Expr_nullWrapper_ f) args) namespace selection
    = Ok (ColumnObj column)
    ∧ (VNull ∈ map (fun input => js_get (data input) i) inputs →
       data column !! i = Some VNull)
    ∧ (VNull ∉ map (fun input => js_get (data input) i) inputs →
       data column !! i =
       Some (f (map (fun input => js_get (data input) i) inputs)))
    ∧ Expr_nullWrapper_ f [VUndefined] = f [VUndefined].
Proof.
  intros Hargs Hi. rewrite (evaluate_FuncExpr_Ok _ _ _ _ _ Hargs).
  eexists. split; [reflexivity|]. simpl.
  change (apply_row ?h inputs) with (write_row (row_value h inputs)).
  rewrite write_rows_any_selected by done.
  unfold row_value, Expr_nullWrapper_, includes_null.
  set (values := map (fun input => js_get (data input) i) inputs).
  split; [|split; [|done]].
  - intros Hnull.
    assert (Hex : existsb is_null values = true).
    { apply existsb_exists. exists VNull. split; [|done].
      by apply list_elem_of_In. }
    by rewrite Hex.
  - intros Hnull.
    destruct (existsb is_null values) eqn:Hex; [|done].
    apply existsb_exists in Hex as (v & Hv & Hisnull).
    destruct v; try discriminate. by apply list_elem_of_In in Hv.
Qed.

Lemma nullWrapper_evaluate_row_witness :
  Forall2 (fun arg (column : Column) =>
             evaluate arg sample_namespace [1; 0] = Ok (ColumnObj column))
          sample_args sample_inputs
  ∧ 1 ∈ [1; 0]
  ∧ ∃ column : Column,
      evaluate (FuncExpr (Expr_nullWrapper_ sample_func) sample_args)
               sample_namespace [1; 0] = Ok (ColumnObj column)
      ∧ (VNull ∈ map (fun input => js_get (data input) 1) sample_inputs →
         data column !! 1 = Some VNull)
      ∧ (VNull ∉ map (fun input => js_get (data input) 1) sample_inputs →
         data column !! 1 =
         Some (sample_func (map (fun input => js_get (data input) 1)
                                sample_inputs)))
      ∧ Expr_nullWrapper_ sample_func [VUndefined] = sample_func [VUndefined].
Proof.
  assert (Hargs : Forall2 (fun arg (column : Column) =>
            evaluate arg sample_namespace [1; 0] = Ok (ColumnObj column))
            sample_args sample_inputs).
  { repeat constructor. }
  assert (Hin : 1 ∈ [1; 0]) by left.
  split; [exact Hargs|]. split; [exact Hin|].
  exact (nullWrapper_evaluate_row sample_namespace [1; 0] sample_func
           sample_args sample_inputs 1 Hargs Hin).
Defined.

(** ** Reads over an aligned namespace *)













Section Aligned.
Context (namespace : Namespace) (selection : Selection).
Hypothesis aligned : ∀ name column,
  namespace !! name = Some column →
  length (data column) = row_count namespace.
Hypothesis in_range : Forall (fun selid => selid < row_count namespace) selection.




End Aligned.



(** * Further properties of the scalar library *)

Lemma foldl_js_and_falsy (r : Value) (args : list Value) :
  truthy r = false → foldl (fun result arg => js_and result arg) r args = r.
Proof.
  intros Hr. induction args as [|a args IH]; simpl; [done|].
  unfold js_and at 2. by rewrite Hr.
Qed.

Lemma foldl_js_or_truthy (r : Value) (args : list Value) :
  truthy r = true → foldl (fun result arg => js_or result arg) r args = r.
Proof.
  intros Hr. induction args as [|a args IH]; simpl; [done|].
  unfold js_or at 2. by rewrite Hr.
Qed.

Lemma default_last_cons {A} (d x : A) (l : list A) :
  default d (last (x :: l)) = default x (last l).
Proof. rewrite last_cons. by destruct (last l). Qed.

Lemma foldl_js_and_truthy (r : Value) (args : list Value) :
  truthy r = true →
  foldl (fun result arg => js_and result arg) r args =
  match find (fun v => negb (truthy v)) args with
  | Some v => v
  | None => default r (last args)
  end.
Proof.
  revert r. induction args as [|a args IH]; intros r Hr; simpl; [done|].
  unfold js_and at 2. rewrite Hr.
  destruct (truthy a) eqn:Ha; simpl.
  - rewrite IH by done. destruct (find _ args); [done|].
    change (default a (last args) = default r (last (a :: args))).
    by rewrite default_last_cons.
  - by apply foldl_js_and_falsy.
Qed.

Lemma foldl_js_or_falsy (r : Value) (args : list Value) :
  truthy r = false →
  foldl (fun result arg => js_or result arg) r args =
  match find truthy args with
  | Some v => v
  | None => default r (last args)
  end.
Proof.
  revert r. induction args as [|a args IH]; intros r Hr; simpl; [done|].
  unfold js_or at 2. rewrite Hr.
  destruct (truthy a) eqn:Ha; simpl.
  - by apply foldl_js_or_truthy.
  - rewrite IH by done. destruct (find _ args); [done|].
    change (default a (last args) = default r (last (a :: args))).
    by rewrite default_last_cons.
Qed.

(** X8: on arbitrary values, [Expr.and] returns [null] when an argument is
    [null], otherwise its first falsy argument, or its last argument when
    all are truthy, or [true] without arguments; [Expr.or] returns [null]
    when an argument is [null], otherwise its first truthy argument, or its
    last argument when none is truthy, or [false] without arguments. *)
Theorem Expr_and_or_operands (args : list Value) :
  Expr_and args =
    (if includes_null args then VNull
     else match find (fun v => negb (truthy v)) args with
          | Some v => v
          | None => default (VBool true) (last args)
          end)
  ∧ Expr_or args =
    (if includes_null args then VNull
     else match find truthy args with
          | Some v => v
          | None => default (VBool false) (last args)
          end).
Proof.
  unfold Expr_and, Expr_or. destruct (includes_null args); [done|].
  by rewrite foldl_js_and_truthy, foldl_js_or_falsy.
Qed.

Lemma Expr_and_of_bool3 (bs : list (Nullable bool)) :
  Expr_and (of_bool3 <$> bs) =
  if existsb (fun b => negb (not_null b)) bs then VNull
  else VBool (fold_left andb (non_null bs) true).
Proof.
  unfold Expr_and. rewrite includes_null_of_bool3.
  destruct (existsb _ bs) eqn:Hnull; [done|].
  by rewrite (of_bool3_all_Some bs Hnull), foldl_js_and.
Qed.

Lemma Expr_or_of_bool3 (bs : list (Nullable bool)) :
  Expr_or (of_bool3 <$> bs) =
  if existsb (fun b => negb (not_null b)) bs then VNull
  else VBool (fold_left orb (non_null bs) false).
Proof.
  unfold Expr_or. rewrite includes_null_of_bool3.
  destruct (existsb _ bs) eqn:Hnull; [done|].
  by rewrite (of_bool3_all_Some bs Hnull), foldl_js_or.
Qed.

Lemma Expr_not_of_bool3 (b : Nullable bool) :
  Expr_not (of_bool3 b) = of_bool3 (negb <$> b).
Proof. by destruct b as [[]|]. Qed.

Lemma existsb_null_fmap_negb (bs : list (Nullable bool)) :
  existsb (fun b => negb (not_null b)) ((fun x : Nullable bool => negb <$> x) <$> bs)
  = existsb (fun b => negb (not_null b)) bs.
Proof. induction bs as [|[b|] bs IH]; simpl; [done| |done]. exact IH. Qed.

Lemma non_null_fmap_negb (bs : list (Nullable bool)) :
  non_null ((fun x : Nullable bool => negb <$> x) <$> bs) = negb <$> non_null bs.
Proof.
  unfold non_null. induction bs as [|[b|] bs IH]; simpl; [done| |exact IH].
  f_equal. exact IH.
Qed.

Lemma fold_left_orb_negb (l : list bool) (a : bool) :
  fold_left orb (negb <$> l) (negb a) = negb (fold_left andb l a).
Proof.
  revert a. induction l as [|b l IH]; intros a; simpl; [done|].
  rewrite <- IH. by rewrite negb_andb.
Qed.

Lemma fold_left_andb_negb (l : list bool) (a : bool) :
  fold_left andb (negb <$> l) (negb a) = negb (fold_left orb l a).
Proof.
  revert a. induction l as [|b l IH]; intros a; simpl; [done|].
  rewrite <- IH. by rewrite negb_orb.
Qed.

(** X9: on booleans and [null] the three functions obey De Morgan's laws,
    the negation of a conjunction being the disjunction of the negations
    and dually, and [Expr.not] is an involution. *)
Theorem three_valued_de_morgan (bs : list (Nullable bool)) (b : Nullable bool) :
  Expr_not (Expr_and (of_bool3 <$> bs))
    = Expr_or ((fun x => Expr_not (of_bool3 x)) <$> bs)
  ∧ Expr_not (Expr_or (of_bool3 <$> bs))
    = Expr_and ((fun x => Expr_not (of_bool3 x)) <$> bs)
  ∧ Expr_not (Expr_not (of_bool3 b)) = of_bool3 b.
Proof.
  assert (Hmap : (fun x => Expr_not (of_bool3 x)) <$> bs
                 = of_bool3 <$> ((fun x : Nullable bool => negb <$> x) <$> bs)).
  { rewrite <- list_fmap_compose. apply list_fmap_ext.
    intros i x _. apply Expr_not_of_bool3. }
  rewrite Hmap, !Expr_and_of_bool3, !Expr_or_of_bool3.
  rewrite existsb_null_fmap_negb, non_null_fmap_negb.
  split; [|split].
  - destruct (existsb _ bs); [done|].
    change false with (negb true). by rewrite fold_left_orb_negb.
  - destruct (existsb _ bs); [done|].
    change true with (negb false). by rewrite fold_left_andb_negb.
  - by destruct b as [[]|].
Qed.

Lemma existsb_Permutation {A} (p : A → bool) (l k : list A) :
  l ≡ₚ k → existsb p l = existsb p k.
Proof.
  induction 1 as [|x l k _ IH|x y l|l k m _ IH1 _ IH2]; simpl.
  - done.
  - by rewrite IH.
  - destruct (p x), (p y); done.
  - congruence.
Qed.

Lemma fold_left_andb_Permutation (l k : list bool) (a : bool) :
  l ≡ₚ k → fold_left andb l a = fold_left andb k a.
Proof.
  intros Hperm. revert a.
  induction Hperm as [|x l k _ IH|x y l|l k m _ IH1 _ IH2]; intros a; simpl.
  - done.
  - apply IH.
  - f_equal. destruct a, x, y; done.
  - by rewrite IH1.
Qed.

Lemma fold_left_orb_Permutation (l k : list bool) (a : bool) :
  l ≡ₚ k → fold_left orb l a = fold_left orb k a.
Proof.
  intros Hperm. revert a.
  induction Hperm as [|x l k _ IH|x y l|l k m _ IH1 _ IH2]; intros a; simpl.
  - done.
  - apply IH.
  - f_equal. destruct a, x, y; done.
  - by rewrite IH1.
Qed.

(** X10: on booleans and [null] the order of the arguments of [Expr.and]
    and of [Expr.or] does not matter. *)
Theorem three_valued_argument_order (bs bs' : list (Nullable bool)) :
  bs ≡ₚ bs' →
  Expr_and (of_bool3 <$> bs) = Expr_and (of_bool3 <$> bs')
  ∧ Expr_or (of_bool3 <$> bs) = Expr_or (of_bool3 <$> bs').
Proof.
  intros Hperm. rewrite !Expr_and_of_bool3, !Expr_or_of_bool3.
  rewrite (existsb_Permutation _ _ _ Hperm).
  assert (Hnn : non_null bs ≡ₚ non_null bs').
  { unfold non_null. by rewrite Hperm. }
  rewrite (fold_left_andb_Permutation _ _ _ Hnn).
  by rewrite (fold_left_orb_Permutation _ _ _ Hnn).
Qed.

Lemma three_valued_argument_order_witness :
  [Some true; None; Some false] ≡ₚ [Some false; Some true; None]
  ∧ Expr_and (of_bool3 <$> [Some true; None; Some false])
    = Expr_and (of_bool3 <$> [Some false; Some true; None])
  ∧ Expr_or (of_bool3 <$> [Some true; None; Some false])
    = Expr_or (of_bool3 <$> [Some false; Some true; None]).
Proof.
  assert (Hperm : [Some true; None; Some false]
                  ≡ₚ [Some false; Some true; None]).
  { etrans; [apply perm_skip, perm_swap|]. apply perm_swap. }
  split; [exact Hperm|].
  exact (three_valued_argument_order _ _ Hperm).
Defined.

(** ** Trimming *)

Section Trim.
Context (is_space : Ascii.ascii → bool).

Lemma append_String (c : Ascii.ascii) (s t : string) :
  String c s +:+ t = String c (s +:+ t).
Proof. reflexivity. Qed.

Lemma trim_start_split (s : string) :
  ∃ l, s = l +:+ trim_start is_space s ∧ all_spaces is_space l = true.
Proof.
  induction s as [|c s IH]; simpl.
  - by exists "".
  - destruct (is_space c) eqn:Hc.
    + destruct IH as (l & Hs & Hl). exists (String c l). split.
      * rewrite append_String. by f_equal.
      * simpl. by rewrite Hc, Hl.
    + by exists "".
Qed.

Lemma trim_start_no_space (s : string) :
  starts_with_space is_space (trim_start is_space s) = false.
Proof.
  induction s as [|c s IH]; simpl; [done|].
  destruct (is_space c) eqn:Hc; [done|]. simpl. exact Hc.
Qed.

Lemma trim_start_fixed (s : string) :
  starts_with_space is_space s = false → trim_start is_space s = s.
Proof. destruct s as [|c s]; simpl; [done|]. by intros ->. Qed.

Lemma trim_start_all_spaces (s : string) :
  all_spaces is_space s = true → trim_start is_space s = "".
Proof.
  induction s as [|c s IH]; simpl; [done|].
  intros Hs. apply andb_true_iff in Hs as [-> Hs]. by apply IH.
Qed.

Lemma trim_end_split (s : string) :
  ∃ r, s = trim_end is_space s +:+ r ∧ all_spaces is_space r = true.
Proof.
  induction s as [|c s IH]; simpl.
  - by exists "".
  - destruct (is_space c && all_spaces is_space s) eqn:Hc.
    + exists (String c s). split; [done|]. exact Hc.
    + destruct IH as (r & Hs & Hr). exists r. split; [|done].
      rewrite append_String. by f_equal.
Qed.

Lemma trim_end_empty (s : string) :
  trim_end is_space s = "" → all_spaces is_space s = true.
Proof.
  destruct s as [|c s]; simpl; [done|].
  by destruct (is_space c && all_spaces is_space s).
Qed.

Lemma trim_end_no_space (s : string) :
  ends_with_space is_space (trim_end is_space s) = false.
Proof.
  induction s as [|c s IH]; simpl; [done|].
  destruct (is_space c && all_spaces is_space s) eqn:Hc; [done|].
  destruct (trim_end is_space s) as [|d t] eqn:Ht.
  - apply trim_end_empty in Ht. rewrite Ht, andb_true_r in Hc. simpl. exact Hc.
  - exact IH.
Qed.

Lemma all_spaces_ends_with_space (c : Ascii.ascii) (s : string) :
  all_spaces is_space (String c s) = true →
  ends_with_space is_space (String c s) = true.
Proof.
  revert c. induction s as [|d s IH]; intros c; simpl.
  - by rewrite andb_true_r.
  - intros H. apply andb_true_iff in H as [_ H]. by apply IH.
Qed.

Lemma trim_end_fixed (s : string) :
  ends_with_space is_space s = false → trim_end is_space s = s.
Proof.
  induction s as [|c s IH]; [done|]. intros Hend.
  change (trim_end is_space (String c s))
    with (if is_space c && all_spaces is_space s then ""
          else String c (trim_end is_space s)).
  destruct (is_space c && all_spaces is_space s) eqn:Hc.
  - apply (all_spaces_ends_with_space c s) in Hc. congruence.
  - f_equal. destruct s as [|d s]; [done|]. by apply IH.
Qed.

Lemma trim_end_keeps_start (s : string) :
  starts_with_space is_space s = false →
  starts_with_space is_space (trim_end is_space s) = false.
Proof.
  destruct s as [|c s]; simpl; [done|]. intros Hc.
  by destruct (is_space c && all_spaces is_space s).
Qed.

Lemma trim_start_trim_end (s : string) :
  trim_start is_space (trim_end is_space s)
  = trim_end is_space (trim_start is_space s).
Proof.
  induction s as [|c s IH]; [done|].
  change (trim_end is_space (String c s))
    with (if is_space c && all_spaces is_space s then ""
          else String c (trim_end is_space s)).
  change (trim_start is_space (String c s))
    with (if is_space c then trim_start is_space s else String c s).
  destruct (is_space c) eqn:Hc; simpl.
  - destruct (all_spaces is_space s) eqn:Hs.
    + by rewrite (trim_start_all_spaces s Hs).
    + simpl. by rewrite Hc.
  - by rewrite Hc.
Qed.

Lemma trailing_spaces_le (s : string) :
  trailing_spaces is_space s ≤ String.length s.
Proof.
  induction s as [|c s IH]; simpl; [done|].
  destruct (is_space c && all_spaces is_space s); lia.
Qed.

Lemma substring_none (n : nat) (s : string) : String.substring n 0 s = "".
Proof.
  revert n. induction s as [|c s IH]; intros [|n]; simpl; auto.
Qed.

(** Cutting at the index where the trailing white space begins. *)
Lemma substring_trim_end (s : string) :
  String.substring 0 (String.length s - trailing_spaces is_space s) s
  = trim_end is_space s.
Proof.
  induction s as [|c s IH]; [done|].
  change (trim_end is_space (String c s))
    with (if is_space c && all_spaces is_space s then ""
          else String c (trim_end is_space s)).
  change (trailing_spaces is_space (String c s))
    with (if is_space c && all_spaces is_space s then S (String.length s)
          else trailing_spaces is_space s).
  change (String.length (String c s)) with (S (String.length s)).
  destruct (is_space c && all_spaces is_space s).
  - by rewrite Nat.sub_diag.
  - pose proof (trailing_spaces_le s) as Hle.
    replace (S (String.length s) - trailing_spaces is_space s)
      with (S (String.length s - trailing_spaces is_space s)) by lia.
    simpl. by rewrite IH.
Qed.

(** [trim] cuts between the two indices that [ltrim] and [rtrim] find. *)
Lemma String_trim_ends (s : string) :
  String_trim is_space s = trim_end is_space (trim_start is_space s).
Proof.
  unfold String_trim. induction s as [|c s IH]; [done|].
  change (trim_start is_space (String c s))
    with (if is_space c then trim_start is_space s else String c s).
  change (leading_spaces is_space (String c s))
    with (if is_space c then S (leading_spaces is_space s) else 0).
  destruct (is_space c) eqn:Hc.
  - change (trailing_spaces is_space (String c s))
      with (if is_space c && all_spaces is_space s then S (String.length s)
            else trailing_spaces is_space s).
    change (String.length (String c s)) with (S (String.length s)).
    rewrite Hc. simpl andb.
    destruct (all_spaces is_space s) eqn:Hs.
    + rewrite (trim_start_all_spaces s Hs), Nat.sub_diag. simpl.
      apply substring_none.
    + rewrite <- IH. simpl. f_equal.
      pose proof (trailing_spaces_le s). lia.
  - rewrite Nat.sub_0_r. apply substring_trim_end.
Qed.

(** X11: trimming removes white space and nothing else, and only at the
    ends: the string is a run of white space, followed by the trimmed
    string, followed by a run of white space, and the trimmed string
    neither starts nor ends with white space; likewise for [ltrim] at the
    start and for [rtrim] at the end. *)
Theorem trim_removes_edge_space (s : string) :
  (∃ l r, s = l +:+ String_trim is_space s +:+ r
          ∧ all_spaces is_space l = true ∧ all_spaces is_space r = true)
  ∧ starts_with_space is_space (String_trim is_space s) = false
  ∧ ends_with_space is_space (String_trim is_space s) = false
  ∧ (∃ l, s = l +:+ trim_start is_space s ∧ all_spaces is_space l = true)
  ∧ starts_with_space is_space (trim_start is_space s) = false
  ∧ (∃ r, s = trim_end is_space s +:+ r ∧ all_spaces is_space r = true)
  ∧ ends_with_space is_space (trim_end is_space s) = false
  ∧ Expr_trim is_space (Some s) = Some (String_trim is_space s)
  ∧ Expr_ltrim is_space (Some s) = Some (trim_start is_space s)
  ∧ Expr_rtrim is_space (Some s) = Some (trim_end is_space s).
Proof.
  repeat split; try reflexivity; rewrite ?String_trim_ends;
    auto using trim_start_split, trim_start_no_space, trim_end_split,
      trim_end_no_space.
  - destruct (trim_start_split s) as (l & Hl & Hspace).
    destruct (trim_end_split (trim_start is_space s)) as (r & Hr & Hspace').
    exists l, r. split; [|done]. by rewrite <- Hr.
  - apply trim_end_keeps_start, trim_start_no_space.
Qed.

(** X12: [trim] is [ltrim] after [rtrim] and [rtrim] after [ltrim], each of
    the three functions is idempotent, and each maps [null] to [null]. *)
Theorem trim_composition (untrimmed : Nullable string) :
  Expr_trim is_space untrimmed
    = Expr_ltrim is_space (Expr_rtrim is_space untrimmed)
  ∧ Expr_trim is_space untrimmed
    = Expr_rtrim is_space (Expr_ltrim is_space untrimmed)
  ∧ Expr_trim is_space (Expr_trim is_space untrimmed)
    = Expr_trim is_space untrimmed
  ∧ Expr_ltrim is_space (Expr_ltrim is_space untrimmed)
    = Expr_ltrim is_space untrimmed
  ∧ Expr_rtrim is_space (Expr_rtrim is_space untrimmed)
    = Expr_rtrim is_space untrimmed
  ∧ Expr_trim is_space None = None
  ∧ Expr_ltrim is_space None = None
  ∧ Expr_rtrim is_space None = None.
Proof.
  destruct untrimmed as [s|]; [|done]. simpl. rewrite !String_trim_ends.
  repeat split; f_equal.
  - symmetry. apply trim_start_trim_end.
  - rewrite <- (trim_start_trim_end (trim_end is_space _)).
    rewrite (trim_end_fixed _ (trim_end_no_space _)).
    rewrite trim_start_trim_end.
    by rewrite (trim_start_fixed _ (trim_start_no_space _)).
  - apply trim_start_fixed, trim_start_no_space.
  - apply trim_end_fixed, trim_end_no_space.
Qed.
End Trim.

(** * Further properties of the aggregates *)

(** ** Counting *)

Lemma CountStar_run {V} (calls : list V) :
  CountStar.count
    (foldl (fun state _ => CountStar.update state) CountStar.initialize calls)
  = length calls.
Proof.
  induction calls as [|call calls IH] using rev_ind; [done|].
  rewrite foldl_snoc, length_app. simpl. rewrite IH. lia.
Qed.

Lemma Count_run {T} (vals : list (Nullable T)) :
  Count.count (foldl Count.update Count.initialize vals)
  = length (non_null vals).
Proof.
  induction vals as [|val vals IH] using rev_ind; [done|].
  rewrite foldl_snoc, non_null_snoc, length_app. simpl. rewrite IH.
  by destruct val.
Qed.

Lemma non_null_length {T} (vals : list (Nullable T)) :
  length (non_null vals) ≤ length vals.
Proof.
  induction vals as [|[v|] vals IH]; [done| |].
  - change (non_null (Some v :: vals)) with (v :: non_null vals). simpl. lia.
  - change (non_null (None :: vals)) with (non_null vals). simpl. lia.
Qed.

Lemma non_null_all {T} (vals : list (Nullable T)) :
  length (non_null vals) = length vals ↔ Forall (fun val => val ≠ None) vals.
Proof.
  induction vals as [|[v|] vals IH].
  - split; [constructor|done].
  - change (non_null (Some v :: vals)) with (v :: non_null vals). simpl.
    rewrite Forall_cons. split.
    + intros [= Hlen]. split; [done|]. by apply IH.
    + intros [_ Hall]. f_equal. by apply IH.
  - change (non_null (None :: vals)) with (non_null vals). simpl.
    rewrite Forall_cons. split.
    + intros Hlen. pose proof (non_null_length vals). lia.
    + by intros [? _].
Qed.


(** X13: COUNT(STAR) finalizes to the number of updates, whatever was
    passed to them, and to [0] when there was none. *)
Theorem CountStar_counts_updates {V} (calls : list V) :
  (CountStar.finalize
     (foldl (fun state _ => CountStar.update state) CountStar.initialize calls)).1
  = length calls.
Proof. apply CountStar_run. Qed.

(** X14: COUNT finalizes to the number of non-null values of the update
    sequence, which is at most the number of updates and equal to it
    exactly when no update was [null]. *)
Theorem Count_counts_non_null {T} (vals : list (Nullable T)) :
  let count := (Count.finalize (foldl Count.update Count.initialize vals)).1 in
  count = length (non_null vals)
  ∧ count ≤ length vals
  ∧ (count = length vals ↔ Forall (fun val => val ≠ None) vals).
Proof.
  simpl. rewrite Count_run. split; [done|].
  split; [apply non_null_length|apply non_null_all].
Qed.

(** ** Sums and averages *)

(** X15: SUM finalizes to [null] when the update sequence has no non-null
    value and otherwise to the running sum: its first non-null value, to
    which the later non-null values are added one by one, in update order,
    with the addition of numbers.  That addition rounds, so the result
    depends on the order: [2^53, 1, 1] sums to [2^53] and [1, 1, 2^53] to
    [2^53 + 2]. *)
Theorem Sum_finalize_sum (vals : list (Nullable float)) :
  (Sum.finalize (foldl Sum.update Sum.initialize vals)).1 =
    match non_null vals with
    | [] => None
    | x :: xs => Some (foldl js_add x xs)
    end
  ∧ (Sum.finalize
       (foldl Sum.update Sum.initialize
              [Some 9007199254740992%float; Some 1%float; Some 1%float])).1
    = Some 9007199254740992%float
  ∧ (Sum.finalize
       (foldl Sum.update Sum.initialize
              [Some 1%float; Some 1%float; Some 9007199254740992%float])).1
    = Some 9007199254740994%float.
Proof.
  split; [|split; vm_compute; reflexivity].
  simpl. rewrite Sum_run. by destruct (non_null vals).
Qed.

(** X16: AVG is SUM divided by COUNT over the same update sequence: its
    state holds the sum that SUM holds and the count that COUNT holds, the
    sum is [null] exactly when the count is [0], and the result is [null]
    for the count [0] and the quotient otherwise. *)
Theorem Avg_is_Sum_over_Count (vals : list (Nullable float)) :
  let avg := foldl Avg.update Avg.initialize vals in
  let sum := (Sum.finalize (foldl Sum.update Sum.initialize vals)).1 in
  let count := (Count.finalize (foldl Count.update Count.initialize vals)).1 in
  Sum.sum (Avg.super avg) = sum
  ∧ Avg.count avg = count
  ∧ (sum = None ↔ count = 0)
  ∧ (Avg.finalize avg).1 =
    match sum with
    | Some s => Some (js_div s (Number_of_count count))
    | None => None
    end.
Proof.
  simpl. rewrite Avg_run, Count_run, Sum_run. unfold Avg.finalize. simpl.
  rewrite Sum_run.
  destruct (non_null vals) as [|x xs]; simpl; done.
Qed.

(** ** [null] updates *)

Lemma foldl_skip_null {St T} (upd : St → Nullable T → St)
    (vals : list (Nullable T)) (state : St) :
  (∀ st, upd st None = st) →
  foldl upd state vals = foldl upd state (Some <$> non_null vals).
Proof.
  intros Hnull. revert state.
  induction vals as [|[v|] vals IH]; intros state; [done| |].
  - change (non_null (Some v :: vals)) with (v :: non_null vals). simpl.
    apply IH.
  - change (non_null (None :: vals)) with (non_null vals). simpl.
    rewrite Hnull. apply IH.
Qed.

(** X17: for COUNT, SUM, AVG, MIN, MAX, FIRST, LAST and STRING_AGG an update
    with [null] leaves the state as it is, so that the state after an update
    sequence is the state after its non-null values alone; ARRAY_AGG and
    COUNT(STAR) change their state at every update. *)
Theorem null_updates_are_skipped {T} (ToString_other : Value → string)
    (args : list Expr) (tvals : list (Nullable T)) (vals : list (Nullable float))
    (svals : list (Nullable string)) :
  foldl Count.update Count.initialize tvals
    = foldl Count.update Count.initialize (Some <$> non_null tvals)
  ∧ foldl Sum.update Sum.initialize vals
    = foldl Sum.update Sum.initialize (Some <$> non_null vals)
  ∧ foldl Avg.update Avg.initialize vals
    = foldl Avg.update Avg.initialize (Some <$> non_null vals)
  ∧ foldl Min.update Min.initialize vals
    = foldl Min.update Min.initialize (Some <$> non_null vals)
  ∧ foldl Max.update Max.initialize vals
    = foldl Max.update Max.initialize (Some <$> non_null vals)
  ∧ foldl First.update First.initialize tvals
    = foldl First.update First.initialize (Some <$> non_null tvals)
  ∧ foldl Last.update Last.initialize tvals
    = foldl Last.update Last.initialize (Some <$> non_null tvals)
  ∧ foldl (StringAgg.update ToString_other args) StringAgg.initialize svals
    = foldl (StringAgg.update ToString_other args) StringAgg.initialize
            (Some <$> non_null svals)
  ∧ (∀ state : ArrayAgg.State T, ArrayAgg.update state None ≠ state)
  ∧ (∀ state, CountStar.update state ≠ state).
Proof.
  repeat split; try (apply foldl_skip_null; intros st; try reflexivity).
  - destruct st as [count]. unfold Count.update. simpl. f_equal. lia.
  - destruct st as [[sum] count]. unfold Avg.update. simpl. f_equal. lia.
  - intros [[array|]]; unfold ArrayAgg.update; simpl; intros [= Heq].
    apply (f_equal length) in Heq. rewrite length_app in Heq. simpl in Heq. lia.
  - intros [count]. unfold CountStar.update. simpl. intros [= Heq]. lia.
Qed.

(** ** When a result is [null] *)


(** ** The separator of STRING_AGG *)

(** X19: the separator chosen by the constructor of STRING_AGG is never
    falsy: it is the constant of the second argument when that argument is
    a constant node with a truthy constant, and [","] in every other case
    (no second argument, a second argument that is not a constant node, or
    a falsy constant such as the empty string, [0] or [null]). *)
Theorem StringAgg_sep_truthy (args : list Expr) :
  truthy (StringAgg.sep args) = true
  ∧ match args !! 1 with
    | Some (ConstExpr constant) =>
        StringAgg.sep args = if truthy constant then constant else VStr ","
    | _ => StringAgg.sep args = VStr ","
    end.
Proof.
  unfold StringAgg.sep, js_or.
  destruct (args !! 1) as [[func args'|reference|constant]|]; simpl; try done.
  destruct (truthy constant) eqn:Hc; done.
Qed.

(** ** The order of the updates *)

Lemma smallest_of_same_number (xs ys : list float) (r r' : Nullable float) :
  Forall (fun x => PrimFloat.is_nan x = false) xs →
  xs ≡ₚ ys → smallest_of xs r → smallest_of ys r' → same_number r r'.
Proof.
  intros Hnan Hperm Hr Hr'. destruct r as [m|], r' as [m'|]; simpl in *.
  - destruct Hr as [Hin Hle], Hr' as [Hin' Hle'].
    rewrite <- Hperm in Hin'.
    apply leb_antisym.
    + by apply (proj1 (Forall_forall _ _) Hnan).
    + by apply (proj1 (Forall_forall _ _) Hnan).
    + by apply Hle.
    + apply Hle'. by rewrite <- Hperm.
  - subst ys. destruct Hr as [Hin _]. apply Permutation_nil_r in Hperm.
    subst xs. by apply elem_of_nil in Hin.
  - subst xs. destruct Hr' as [Hin _]. apply Permutation_nil_l in Hperm.
    subst ys. by apply elem_of_nil in Hin.
  - done.
Qed.

Lemma largest_of_same_number (xs ys : list float) (r r' : Nullable float) :
  Forall (fun x => PrimFloat.is_nan x = false) xs →
  xs ≡ₚ ys → largest_of xs r → largest_of ys r' → same_number r r'.
Proof.
  intros Hnan Hperm Hr Hr'. destruct r as [m|], r' as [m'|]; simpl in *.
  - destruct Hr as [Hin Hle], Hr' as [Hin' Hle'].
    rewrite <- Hperm in Hin'.
    apply leb_antisym.
    + by apply (proj1 (Forall_forall _ _) Hnan).
    + by apply (proj1 (Forall_forall _ _) Hnan).
    + apply Hle'. by rewrite <- Hperm.
    + by apply Hle.
  - subst ys. destruct Hr as [Hin _]. apply Permutation_nil_r in Hperm.
    subst xs. by apply elem_of_nil in Hin.
  - subst xs. destruct Hr' as [Hin _]. apply Permutation_nil_l in Hperm.
    subst ys. by apply elem_of_nil in Hin.
  - done.
Qed.

(** X20: the results of COUNT, MIN and MAX do not depend on the order of
    the updates when [NaN] is not among the values: over two update
    sequences that are permutations of each other the counts are equal, and
    the minima, as well as the maxima, are both [null] or equal as numbers
    (as [0] and [-0] are). *)
Theorem aggregates_ignore_update_order (vals vals' : list (Nullable float)) :
  vals ≡ₚ vals' →
  Forall (fun x => PrimFloat.is_nan x = false) (non_null vals) →
  (Count.finalize (foldl Count.update Count.initialize vals)).1
    = (Count.finalize (foldl Count.update Count.initialize vals')).1
  ∧ same_number (Min.finalize (foldl Min.update Min.initialize vals)).1
                (Min.finalize (foldl Min.update Min.initialize vals')).1
  ∧ same_number (Max.finalize (foldl Max.update Max.initialize vals)).1
                (Max.finalize (foldl Max.update Max.initialize vals')).1.
Proof.
  intros Hperm Hnan.
  assert (Hnn : non_null vals ≡ₚ non_null vals').
  { unfold non_null. by rewrite Hperm. }
  assert (Hnan' : Forall (fun x => PrimFloat.is_nan x = false)
                         (non_null vals')) by (by rewrite <- Hnn).
  split; [|split].
  - simpl. rewrite !Count_run. by apply Permutation_length.
  - apply (smallest_of_same_number (non_null vals) (non_null vals'));
      auto using Min_finalize_smallest.
  - apply (largest_of_same_number (non_null vals) (non_null vals'));
      auto using Max_finalize_largest.
Qed.

Lemma aggregates_ignore_update_order_witness :
  [Some 5%float; None; Some 2%float] ≡ₚ [None; Some 2%float; Some 5%float]
  ∧ Forall (fun x => PrimFloat.is_nan x = false)
           (non_null [Some 5%float; None; Some 2%float])
  ∧ (Count.finalize
       (foldl Count.update Count.initialize
              [Some 5%float; None; Some 2%float])).1
    = (Count.finalize
         (foldl Count.update Count.initialize
                [None; Some 2%float; Some 5%float])).1
  ∧ same_number
      (Min.finalize (foldl Min.update Min.initialize
                           [Some 5%float; None; Some 2%float])).1
      (Min.finalize (foldl Min.update Min.initialize
                           [None; Some 2%float; Some 5%float])).1
  ∧ same_number
      (Max.finalize (foldl Max.update Max.initialize
                           [Some 5%float; None; Some 2%float])).1
      (Max.finalize (foldl Max.update Max.initialize
                           [None; Some 2%float; Some 5%float])).1.
Proof.
  assert (Hperm : [Some 5%float; None; Some 2%float]
                  ≡ₚ [None; Some 2%float; Some 5%float]).
  { etrans; [apply perm_swap|]. apply perm_skip, perm_swap. }
  assert (Hnan : Forall (fun x => PrimFloat.is_nan x = false)
                        (non_null [Some 5%float; None; Some 2%float])).
  { repeat apply List.Forall_cons; try apply List.Forall_nil;
      vm_compute; reflexivity. }
  split; [exact Hperm|]. split; [exact Hnan|].
  exact (aggregates_ignore_update_order _ _ Hperm Hnan).
Defined.

(** ** The average and the extremes *)

(** X21: the average need not lie between the minimum and the maximum,
    because the running sum and the division round: over three updates with
    the number nearest to 0.1, MIN and MAX return that number and AVG
    returns the next larger number, 0.10000000000000002. *)
Theorem Avg_exceeds_Max :
  let tenth := 0x1.999999999999ap-4%float in
  let vals := [Some tenth; Some tenth; Some tenth] in
  (Min.finalize (foldl Min.update Min.initialize vals)).1 = Some tenth
  ∧ (Max.finalize (foldl Max.update Max.initialize vals)).1 = Some tenth
  ∧ (Avg.finalize (foldl Avg.update Avg.initialize vals)).1
    = Some 0x1.999999999999bp-4%float
  ∧ js_lt tenth 0x1.999999999999bp-4 = true.
Proof. repeat split; vm_compute; reflexivity. Qed.

(** ** Update sequences in two parts *)

Section MergeParts.
Context {T : Type} (selector : T → T → T) (P : T → Prop).
Hypothesis closed : ∀ a b, P a → P b → P (selector a b).
Hypothesis assoc : ∀ a b c, P a → P b → P c →
  selector (selector a b) c = selector a (selector b c).

Lemma foldl_assoc_shift (a y : T) (ys : list T) :
  P a → P y → Forall P ys →
  foldl selector (selector a y) ys = selector a (foldl selector y ys).
Proof.
  intros Ha Hy Hys. revert y Hy.
  induction Hys as [|z ys Hz _ IH]; intros y Hy; simpl; [done|].
  rewrite assoc by done. apply IH. by apply closed.
Qed.

Lemma foldl_closed (x : T) (xs : list T) :
  P x → Forall P xs → P (foldl selector x xs).
Proof.
  intros Hx Hxs. revert x Hx.
  induction Hxs as [|z xs Hz _ IH]; intros x Hx; simpl; [done|].
  apply IH. by apply closed.
Qed.

Lemma selected_app (xs ys : list T) :
  Forall P xs → Forall P ys →
  selected selector (xs ++ ys)
  = merge selector (selected selector xs) (selected selector ys).
Proof.
  intros Hxs Hys. destruct xs as [|x xs]; [done|].
  destruct ys as [|y ys]; simpl.
  - by rewrite app_nil_r.
  - apply Forall_cons_1 in Hxs as [Hx Hxs].
    apply Forall_cons_1 in Hys as [Hy Hys].
    rewrite foldl_app. simpl. f_equal.
    apply foldl_assoc_shift; [|done..]. by apply foldl_closed.
Qed.
End MergeParts.

Lemma selected_app_assoc {T} (selector : T → T → T) (xs ys : list T) :
  (∀ a b c, selector (selector a b) c = selector a (selector b c)) →
  selected selector (xs ++ ys)
  = merge selector (selected selector xs) (selected selector ys).
Proof.
  intros Hassoc.
  apply (selected_app selector (fun _ => True)); auto.
  - by apply Forall_forall.
  - by apply Forall_forall.
Qed.

Lemma non_null_app {T} (vals1 vals2 : list (Nullable T)) :
  non_null (vals1 ++ vals2) = non_null vals1 ++ non_null vals2.
Proof. unfold non_null. apply omap_app. Qed.

(** Among numbers other than [NaN] the two selectors are associative: of
    several smallest, or largest, numbers the one updated last is kept. *)
Lemma Min_selector_assoc (a b c : float) :
  PrimFloat.is_nan a = false → PrimFloat.is_nan b = false →
  PrimFloat.is_nan c = false →
  Min.selector (Min.selector a b) c = Min.selector a (Min.selector b c).
Proof.
  intros Ha Hb Hc. unfold Min.selector.
  destruct (js_lt a b) eqn:Hab, (js_lt b c) eqn:Hbc; rewrite ?Hab, ?Hbc.
  - by rewrite (js_lt_trans a b c).
  - done.
  - done.
  - by rewrite (js_lt_not_trans a b c).
Qed.

Lemma Max_selector_assoc (a b c : float) :
  PrimFloat.is_nan a = false → PrimFloat.is_nan b = false →
  PrimFloat.is_nan c = false →
  Max.selector (Max.selector a b) c = Max.selector a (Max.selector b c).
Proof.
  intros Ha Hb Hc. unfold Max.selector, js_gt.
  change PrimFloat.ltb with js_lt.
  destruct (js_lt b a) eqn:Hab, (js_lt c b) eqn:Hbc; rewrite ?Hab, ?Hbc.
  - by rewrite (js_lt_trans c b a).
  - done.
  - done.
  - by rewrite (js_lt_not_trans c b a).
Qed.

(** X22: MIN, MAX, FIRST, LAST and STRING_AGG over an update sequence given
    in two parts return the results over the parts combined by the
    aggregate's own selector: the smaller, the larger, the first, the
    second and the concatenation around the separator; a [null] part leaves
    the other result.  For MIN and MAX the values must not contain [NaN]. *)
Theorem aggregates_merge_parts {T} (ToString_other : Value → string)
    (args : list Expr) (vals1 vals2 : list (Nullable float))
    (tvals1 tvals2 : list (Nullable T)) (svals1 svals2 : list (Nullable string)) :
  Forall (fun x => PrimFloat.is_nan x = false) (non_null (vals1 ++ vals2)) →
  (Min.finalize (foldl Min.update Min.initialize (vals1 ++ vals2))).1
    = merge Min.selector
        (Min.finalize (foldl Min.update Min.initialize vals1)).1
        (Min.finalize (foldl Min.update Min.initialize vals2)).1
  ∧ (Max.finalize (foldl Max.update Max.initialize (vals1 ++ vals2))).1
    = merge Max.selector
        (Max.finalize (foldl Max.update Max.initialize vals1)).1
        (Max.finalize (foldl Max.update Max.initialize vals2)).1
  ∧ (First.finalize (foldl First.update First.initialize (tvals1 ++ tvals2))).1
    = merge First.selector
        (First.finalize (foldl First.update First.initialize tvals1)).1
        (First.finalize (foldl First.update First.initialize tvals2)).1
  ∧ (Last.finalize (foldl Last.update Last.initialize (tvals1 ++ tvals2))).1
    = merge Last.selector
        (Last.finalize (foldl Last.update Last.initialize tvals1)).1
        (Last.finalize (foldl Last.update Last.initialize tvals2)).1
  ∧ (StringAgg.finalize
       (foldl (StringAgg.update ToString_other args) StringAgg.initialize
              (svals1 ++ svals2))).1
    = merge (StringAgg.selector ToString_other args)
        (StringAgg.finalize
           (foldl (StringAgg.update ToString_other args) StringAgg.initialize
                  svals1)).1
        (StringAgg.finalize
           (foldl (StringAgg.update ToString_other args) StringAgg.initialize
                  svals2)).1.
Proof.
  intros Hnan. rewrite non_null_app in Hnan.
  apply Forall_app in Hnan as [Hnan1 Hnan2].
  unfold Min.finalize, Max.finalize, First.finalize, Last.finalize,
    StringAgg.finalize, Min.update, Max.update, First.update, Last.update,
    StringAgg.update, Min.initialize, Max.initialize, First.initialize,
    Last.initialize, StringAgg.initialize.
  simpl. rewrite !ValueAggr_run, !non_null_app.
  split; [|split; [|repeat split; apply selected_app_assoc]].
  - apply (selected_app _ (fun x => PrimFloat.is_nan x = false));
      [|apply Min_selector_assoc|done..].
    intros a b Ha Hb. unfold Min.selector. by destruct (js_lt a b).
  - apply (selected_app _ (fun x => PrimFloat.is_nan x = false));
      [|apply Max_selector_assoc|done..].
    intros a b Ha Hb. unfold Max.selector. by destruct (js_gt a b).
  - done.
  - done.
  - intros a b c. unfold StringAgg.selector. by rewrite !append_assoc.
Qed.

Lemma aggregates_merge_parts_witness :
  Forall (fun x => PrimFloat.is_nan x = false)
         (non_null ([Some 5%float; None] ++ [Some 2%float; Some 8%float]))
  ∧ (Min.finalize
       (foldl Min.update Min.initialize
              ([Some 5%float; None] ++ [Some 2%float; Some 8%float]))).1
    = merge Min.selector
        (Min.finalize
           (foldl Min.update Min.initialize [Some 5%float; None])).1
        (Min.finalize
           (foldl Min.update Min.initialize [Some 2%float; Some 8%float])).1.
Proof.
  assert (Hnan : Forall (fun x => PrimFloat.is_nan x = false)
            (non_null ([Some 5%float; None] ++ [Some 2%float; Some 8%float]))).
  { repeat apply List.Forall_cons; try apply List.Forall_nil;
      vm_compute; reflexivity. }
  split; [exact Hnan|].
  exact (proj1 (aggregates_merge_parts (T := unit) (fun _ => "") []
                  [Some 5%float; None] [Some 2%float; Some 8%float]
                  [] [] [] [] Hnan)).
Defined.

(** X23: over an update sequence given in two parts, COUNT(STAR) and COUNT
    return the sum of the counts over the parts, and ARRAY_AGG returns the
    array over the first part followed by the array over the second, a
    [null] part leaving the other result. *)
Theorem counts_and_arrays_merge_parts {V T} (calls1 calls2 : list V)
    (vals1 vals2 : list (Nullable T)) :
  (CountStar.finalize
     (foldl (fun state _ => CountStar.update state) CountStar.initialize
            (calls1 ++ calls2))).1
    = (CountStar.finalize
         (foldl (fun state _ => CountStar.update state) CountStar.initialize
                calls1)).1
      + (CountStar.finalize
           (foldl (fun state _ => CountStar.update state) CountStar.initialize
                  calls2)).1
  ∧ (Count.finalize (foldl Count.update Count.initialize (vals1 ++ vals2))).1
    = (Count.finalize (foldl Count.update Count.initialize vals1)).1
      + (Count.finalize (foldl Count.update Count.initialize vals2)).1
  ∧ (ArrayAgg.finalize
       (foldl ArrayAgg.update ArrayAgg.initialize (vals1 ++ vals2))).1
    = merge app
        (ArrayAgg.finalize (foldl ArrayAgg.update ArrayAgg.initialize vals1)).1
        (ArrayAgg.finalize (foldl ArrayAgg.update ArrayAgg.initialize vals2)).1.
Proof.
  simpl. rewrite !CountStar_run, !Count_run, !ArrayAgg_run.
  rewrite non_null_app, !length_app.
  split; [done|]. split; [done|].
  destruct vals1 as [|v1 vals1], vals2 as [|v2 vals2]; simpl; try done.
  by rewrite app_nil_r.
Qed.

(** ** Columns that an expression does not reference *)

Lemma elem_of_concat_map_references (args : list Expr) (arg : Expr) x :
  arg ∈ args → x ∈ references arg → x ∈ concat (map references args).
Proof.
  intros Harg Hx. induction args as [|a args IH]; simpl.
  - by apply elem_of_nil in Harg.
  - apply elem_of_app. apply elem_of_cons in Harg as [<-|Harg]; [by left|].
    right. by apply IH.
Qed.

(** X24: the columns that an expression does not reference influence its
    evaluation only through the effective row count: over two namespaces
    that have the same row count and agree on every referenced name, the
    evaluation returns the same column or throws the same error. *)
Theorem evaluate_unreferenced_columns (e : Expr) (N1 N2 : Namespace)
    (selection : Selection) :
  row_count N1 = row_count N2 →
  (∀ x, x ∈ references e → N1 !! x = N2 !! x) →
  evaluate e N1 selection = evaluate e N2 selection.
Proof.
  intros Hcount.
  induction e as [func args IH|reference|constant] using Expr_nested_ind;
    intros Hrefs; simpl.
  - assert (Hargs : mapM (fun arg => evaluate arg N1 selection) args
                    = mapM (fun arg => evaluate arg N2 selection) args).
    { apply mapM_ext_Forall. apply Forall_forall. intros arg Harg.
      rewrite Forall_forall in IH. apply IH; [done|].
      intros x Hx. apply Hrefs. simpl.
      by eapply elem_of_concat_map_references. }
    by rewrite Hargs, Hcount.
  - rewrite (Hrefs reference); [done|]. simpl. left.
  - by rewrite Hcount.
Qed.

Lemma evaluate_unreferenced_columns_witness :
  row_count sample_namespace
    = row_count (<["b" := mkColumn None [VNull; VNull; VNull]]> sample_namespace)
  ∧ (∀ x, x ∈ references (FuncExpr sample_func [RefExpr "a"]) →
          sample_namespace !! x
          = (<["b" := mkColumn None [VNull; VNull; VNull]]> sample_namespace)
              !! x)
  ∧ evaluate (FuncExpr sample_func [RefExpr "a"]) sample_namespace [0; 2]
    = evaluate (FuncExpr sample_func [RefExpr "a"])
               (<["b" := mkColumn None [VNull; VNull; VNull]]> sample_namespace)
               [0; 2].
Proof.
  assert (Hcount : row_count sample_namespace
    = row_count (<["b" := mkColumn None [VNull; VNull; VNull]]>
                   sample_namespace)) by (vm_compute; reflexivity).
  assert (Hrefs : ∀ x, x ∈ references (FuncExpr sample_func [RefExpr "a"]) →
    sample_namespace !! x
    = (<["b" := mkColumn None [VNull; VNull; VNull]]> sample_namespace) !! x).
  { intros x Hx. simpl in Hx. apply list_elem_of_singleton in Hx as ->.
    vm_compute. reflexivity. }
  split; [exact Hcount|]. split; [exact Hrefs|].
  exact (evaluate_unreferenced_columns (FuncExpr sample_func [RefExpr "a"])
           sample_namespace _ [0; 2] Hcount Hrefs).
Defined.
